(** * A social-network backend: posts, likes, retweets, comments, follows

    Shallow embedding of the model layer of the server
    ([models/Post.js], [models/User.js], [config/database.js]), of the
    [/register], [/login] and [/metamask] routes of [routes/auth.js] and
    of the [GET /] and [POST /] routes of [routes/posts.js], and the
    properties of its engagement ledger, content graph, feed composer and
    identity store.

    Modelling conventions.
    - The relational store is a record of tables; a table is the list of
      its rows in insertion order together with the serial that feeds the
      auto-increment primary key.
    - An [await]ed model method is a computation in the monad [Async]:
      it reads and writes the store and either returns or throws.  A
      throw keeps the writes made before it, as the source opens no
      transaction.
    - A Sequelize instance is the snapshot of the row taken when it was
      read.  [increment] and [decrement] are executed by the store
      ([SET c = c + 1]); whether they also write the updated row back
      into the instance depends on the dialect ([RETURNING *], which the
      ORM appends by default where the dialect supports it, as PostgreSQL
      does), so it is a parameter of the model, [returning].
    - Ids passed as [userId] are ids of authenticated principals; the
      foreign-key checks of the store on [user_id] columns are not
      represented.  The [updated_at] column is not represented, and
      [created_at] only on the tables where the code reads it.
    - The store does not check the length limits of the [STRING(n)]
      columns, nor the two ends of a [follows] edge; a theorem that needs
      them takes them as hypotheses ([fits_columns], [registered]).
    - A string is a list of 8-bit code units. *)

From Stdlib Require Import Ascii.
From stdpp Require Import base option list strings gmap sorting.

Open Scope Z_scope.

(** ** Rows, as declared by [sequelize.define] *)

Module User.
Record attrs := mk {
  id : Z;
  username : string;
  email : option string;
  password_hash : option string;
  wallet_address : option string;
  bio : option string;
  avatar_url : option string;
  cover_url : option string;
  location : option string;
  website : option string;
  created_at : Z
}.
End User.

Module Post.
Record attrs := mk {
  id : Z;
  user_id : Z;
  content : string;
  likes_count : Z;
  retweets_count : Z;
  comments_count : Z;
  parent_id : option Z;
  is_retweet : bool;
  original_post_id : option Z;
  created_at : Z
}.

Inductive counter := likes_count_c | retweets_count_c | comments_count_c.

(** [SET c = c + d] on one row. *)
Definition add (c : counter) (d : Z) (p : attrs) : attrs :=
  match c with
  | likes_count_c =>
      mk (id p) (user_id p) (content p) (likes_count p + d) (retweets_count p)
         (comments_count p) (parent_id p) (is_retweet p) (original_post_id p)
         (created_at p)
  | retweets_count_c =>
      mk (id p) (user_id p) (content p) (likes_count p) (retweets_count p + d)
         (comments_count p) (parent_id p) (is_retweet p) (original_post_id p)
         (created_at p)
  | comments_count_c =>
      mk (id p) (user_id p) (content p) (likes_count p) (retweets_count p)
         (comments_count p + d) (parent_id p) (is_retweet p) (original_post_id p)
         (created_at p)
  end.
Arguments add : simpl never.
End Post.

Module Comment.
Record attrs := mk {
  id : Z;
  user_id : Z;
  post_id : Z;
  content : string;
  parent_comment_id : option Z;
  created_at : Z
}.
End Comment.

Module Follow.
Record attrs := mk {
  id : Z;
  follower_id : Z;
  following_id : Z
}.
End Follow.

Module Like.
Record attrs := mk {
  id : Z;
  user_id : Z;
  post_id : Z
}.
End Like.

(** ** The store *)

Record Table (R : Type) := mkTable {
  rows : list R;
  serial : Z
}.
Arguments mkTable {R} _ _.
Arguments rows {R} _.
Arguments serial {R} _.

Record Store := mkStore {
  users : Table User.attrs;
  posts : Table Post.attrs;
  comments : Table Comment.attrs;
  follows : Table Follow.attrs;
  likes : Table Like.attrs;
  clock : Z
}.

(** A Sequelize model: its primary key and its table in the store. *)
Class Model (R : Type) := {
  pk : R → Z;
  table : Store → Table R;
  set_table : Table R → Store → Store
}.

#[export] Instance User_model : Model User.attrs := {|
  pk := User.id;
  table := users;
  set_table t s := mkStore t (posts s) (comments s) (follows s) (likes s) (clock s)
|}.

#[export] Instance Post_model : Model Post.attrs := {|
  pk := Post.id;
  table := posts;
  set_table t s := mkStore (users s) t (comments s) (follows s) (likes s) (clock s)
|}.

#[export] Instance Comment_model : Model Comment.attrs := {|
  pk := Comment.id;
  table := comments;
  set_table t s := mkStore (users s) (posts s) t (follows s) (likes s) (clock s)
|}.

#[export] Instance Follow_model : Model Follow.attrs := {|
  pk := Follow.id;
  table := follows;
  set_table t s := mkStore (users s) (posts s) (comments s) t (likes s) (clock s)
|}.

#[export] Instance Like_model : Model Like.attrs := {|
  pk := Like.id;
  table := likes;
  set_table t s := mkStore (users s) (posts s) (comments s) (follows s) t (clock s)
|}.

(** ** Asynchronous computations over the store *)

Inductive exn :=
| Error (message : string)
| TypeError (message : string)
| UniqueConstraintError.

Definition Async (A : Type) : Type := Store → (exn + A) * Store.

#[export] Instance async_ret : MRet Async := λ A a s, (inr a, s).

#[export] Instance async_bind : MBind Async := λ A B f m s,
  match m s with
  | (inr a, s') => f a s'
  | (inl e, s') => (inl e, s')
  end.

Definition throw {A : Type} (e : exn) : Async A := λ s, (inl e, s).

(** What a computation settles with, and the store it leaves. *)
Definition eval {A : Type} (m : Async A) (s : Store) : exn + A := (m s).1.

Definition exec {A : Type} (m : Async A) (s : Store) : Store := (m s).2.

(** ** The query interface used by the models *)

(** Whether an [UPDATE] of the dialect returns the updated row to the
    instance it was issued from. *)
Class Dialect := {
  returning : bool
}.

Module Db.

Section Queries.
Context {R : Type} `{Model R}.

Definition findByPk (i : Z) : Async (option R) := λ s,
  (inr (head (filter (λ r, pk r = i) (rows (table s)))), s).

Definition findOne (P : R → Prop) `{∀ r, Decision (P r)} : Async (option R) := λ s,
  (inr (head (filter P (rows (table s)))), s).

Definition findAll (P : R → Prop) `{∀ r, Decision (P r)} : Async (list R) := λ s,
  (inr (filter P (rows (table s))), s).

Definition count (P : R → Prop) `{∀ r, Decision (P r)} : Async Z := λ s,
  (inr (Z.of_nat (length (filter P (rows (table s))))), s).

(** [Model.create]: the row is built from the next value of the serial. *)
Definition create (build : Z → R) : Async R := λ s,
  let t := table s in
  let r := build (serial t) in
  (inr r, set_table (mkTable (rows t ++ [r]) (serial t + 1)) s).

(** [Model.destroy({ where })]: the number of rows deleted. *)
Definition destroy_where (P : R → Prop) `{∀ r, Decision (P r)} : Async Z := λ s,
  let t := table s in
  (inr (Z.of_nat (length (filter P (rows t)))),
   set_table (mkTable (filter (λ r, ¬ P r) (rows t)) (serial t)) s).

(** [instance.destroy()]: [DELETE ... WHERE id = instance.id]. *)
Definition destroy (instance : R) : Async () := λ s,
  let t := table s in
  (inr (), set_table (mkTable (filter (λ r, pk r ≠ pk instance) (rows t)) (serial t)) s).

(** [UPDATE ... SET ... WHERE id = instance.id], [f] being the [SET] clause. *)
Definition update_instance (f : R → R) (instance : R) : Async () := λ s,
  let t := table s in
  (inr (),
   set_table (mkTable ((λ r, if decide (pk r = pk instance) then f r else r) <$> rows t)
                      (serial t)) s).

(** [Model.findOrCreate]: the row found, or the row created and [true]. *)
Definition findOrCreate (P : R → Prop) `{∀ r, Decision (P r)}
    (defaults : Z → R) : Async (R * bool) :=
  found ← findOne P;
  match found with
  | Some r => mret (r, false)
  | None => r ← create defaults; mret (r, true)
  end.

End Queries.

Section Counters.
Context {dialect : Dialect}.

(** [instance.increment(c)] and [instance.decrement(c)]: the update runs
    in the store; the computation yields the instance as the caller sees
    it after the [await]: refreshed from the returned row when the dialect
    returns it, left as it was read otherwise. *)
Definition arithmetic (c : Post.counter) (d : Z) (instance : Post.attrs)
    : Async Post.attrs :=
  update_instance (Post.add c d) instance;;
  if returning then
    returned ← findByPk (Post.id instance);
    mret (default instance returned)
  else mret instance.

Definition increment (c : Post.counter) (instance : Post.attrs) : Async Post.attrs :=
  arithmetic c 1 instance.

Definition decrement (c : Post.counter) (instance : Post.attrs) : Async Post.attrs :=
  arithmetic c (-1) instance.

End Counters.

End Db.

(** A read of the store, and the result of a synchronous step. *)
Definition read {A : Type} (f : Store → A) : Async A := λ s, (inr (f s), s).

Definition settle {A : Type} (r : exn + A) : Async A := λ s, (r, s).

(** [new Date()] *)
Definition now : Async Z := read clock.

(** [ORDER BY created_at DESC], then [OFFSET] and [LIMIT]. *)
Definition newest_first {R : Type} (created_at : R → Z) (r1 r2 : R) : Prop :=
  created_at r2 ≤ created_at r1.

#[export] Instance newest_first_dec {R : Type} (created_at : R → Z) (r1 r2 : R) :
  Decision (newest_first created_at r1 r2).
Proof. unfold newest_first. apply _. Defined.

#[export] Instance newest_first_total {R : Type} (created_at : R → Z) :
  Total (newest_first created_at).
Proof. intros x y. unfold newest_first. lia. Qed.

#[export] Instance newest_first_trans {R : Type} (created_at : R → Z) :
  Transitive (newest_first created_at).
Proof. intros x y z. unfold newest_first. lia. Qed.

Definition order_desc {R : Type} (created_at : R → Z) (l : list R) : list R :=
  merge_sort (newest_first created_at) l.

Definition page {R : Type} (limit offset : nat) (l : list R) : list R :=
  take limit (drop offset l).

(** ** JavaScript strings: [trim] and the two global [replace] calls of
    [PostModel.search].  A string is the sequence of its code units; the
    white space of [\s] and of [trim] below code unit 256 is tab, line
    feed, vertical tab, form feed, carriage return, space and no-break
    space. *)

Definition is_space (c : ascii) : bool :=
  let n := nat_of_ascii c in
  bool_decide (n = 9 ∨ n = 10 ∨ n = 11 ∨ n = 12 ∨ n = 13 ∨ n = 32 ∨ n = 160)%nat.

(** The character class of the first [replace]: single and double quote,
    colon, ampersand, pipe, bang and the two parentheses. *)
Definition is_special (c : ascii) : bool :=
  let n := nat_of_ascii c in
  bool_decide (n = 39 ∨ n = 34 ∨ n = 58 ∨ n = 38 ∨ n = 124 ∨ n = 33 ∨ n = 40 ∨ n = 41)%nat.

Fixpoint drop_spaces (l : list ascii) : list ascii :=
  match l with
  | c :: l' => if is_space c then drop_spaces l' else l
  | [] => []
  end.

Definition trim (l : list ascii) : list ascii :=
  reverse (drop_spaces (reverse (drop_spaces l))).

(** The first [replace]: every code unit of the class becomes a space. *)
Definition replace_special (l : list ascii) : list ascii :=
  (λ c, if is_special c then " "%char else c) <$> l.

(** The second [replace], of [\s+] globally: every maximal run of white
    space becomes space, ampersand, space; [in_run] tells that the previous
    code unit was white space. *)
Fixpoint replace_spaces (in_run : bool) (l : list ascii) : list ascii :=
  match l with
  | [] => []
  | c :: l' =>
      if is_space c
      then (if in_run then replace_spaces true l'
            else String.list_ascii_of_string " & " ++ replace_spaces true l')
      else c :: replace_spaces false l'
  end.

Definition sanitizedQuery (query : string) : string :=
  String.string_of_list_ascii
    (replace_spaces false (replace_special (trim (String.list_ascii_of_string query)))).

(** ** JavaScript objects: what [instance.toJSON()] yields *)

Inductive JsVal :=
| JNull
| JNum (n : Z)
| JStr (s : string).

Definition nullable (v : option string) : JsVal :=
  match v with
  | Some s => JStr s
  | None => JNull
  end.

(** The [dataValues] of a [User] instance read with all its columns. *)
Definition dataValues (u : User.attrs) : gmap string JsVal :=
  list_to_map [
    ("id", JNum (User.id u));
    ("username", JStr (User.username u));
    ("email", nullable (User.email u));
    ("password_hash", nullable (User.password_hash u));
    ("wallet_address", nullable (User.wallet_address u));
    ("bio", nullable (User.bio u));
    ("avatar_url", nullable (User.avatar_url u));
    ("cover_url", nullable (User.cover_url u));
    ("location", nullable (User.location u));
    ("website", nullable (User.website u));
    ("created_at", JNum (User.created_at u))
  ].

(** The [attributes: [...]] option of a query: only these columns are read. *)
Definition select (attributes : list string) (o : gmap string JsVal) : gmap string JsVal :=
  filter (λ kv, kv.1 ∈ attributes) o.

(** [include: [{ model: User, as: 'author', attributes }]]: a left join. *)
Definition include_author (attributes : list string) (userId : Z) (s : Store)
    : option (gmap string JsVal) :=
  (λ u, select attributes (dataValues u))
    <$> head (filter (λ u, User.id u = userId) (rows (users s))).

(** ** PostgreSQL's [to_tsquery], on the texts that [PostModel.search] can
    send: a conjunction of operands joined by the ampersand, an operand
    being a non-empty word that may carry the prefix marker (colon, star).
    An ampersand with a missing operand is a syntax error. *)

Record operand := mkOperand {
  word : list ascii;
  is_prefix : bool
}.

Fixpoint split_on (sep : ascii) (l : list ascii) : list (list ascii) :=
  match l with
  | [] => [[]]
  | c :: l' =>
      if decide (c = sep) then [] :: split_on sep l'
      else match split_on sep l' with
           | h :: t => (c :: h) :: t
           | [] => [[c]]
           end
  end.

Definition is_word (w : list ascii) : bool :=
  bool_decide (w ≠ []) && forallb (λ c, negb (is_space c) && negb (is_special c)) w.

Definition parse_operand (piece : list ascii) : option operand :=
  let w := trim piece in
  match reverse w with
  | star :: colon :: w' =>
      if decide (star = "*"%char ∧ colon = ":"%char)
      then (if is_word (reverse w') then Some (mkOperand (reverse w') true) else None)
      else (if is_word w then Some (mkOperand w false) else None)
  | _ => if is_word w then Some (mkOperand w false) else None
  end.

Definition to_tsquery (text : string) : option (list operand) :=
  mapM parse_operand (split_on "&"%char (String.list_ascii_of_string text)).

(** The match operator [content_tsv @@ query] of the text-search index
    (stemming and stop words are the store's). *)
Class FullText := {
  tsv_matches : list operand → string → bool
}.

(** ** [models/Post.js] *)

Module PostModel.

Record OriginalPost := mkOriginalPost {
  original_row : Post.attrs;
  original_author : option (gmap string JsVal)
}.

(** A post instance with its includes, as [post.toJSON()] shows it. *)
Record PostJSON := mkPostJSON {
  row : Post.attrs;
  author : option (gmap string JsVal);
  originalPost : option OriginalPost
}.

(** The flat record built by [getAll] and [getTimeline]; [user_id] is the
    overwritten property, read from the author. *)
Record PostData := mkPostData {
  json : PostJSON;
  username : option JsVal;
  wallet_address : option JsVal;
  user_id : option JsVal;
  likes : Z;
  retweets : Z
}.

Record CommentWithAuthor := mkCommentWithAuthor {
  comment_row : Comment.attrs;
  comment_author : option (gmap string JsVal)
}.

Record CommentJSON := mkCommentJSON {
  top : CommentWithAuthor;
  replies : list CommentWithAuthor
}.

Record LikeResult := mkLikeResult {
  liked : bool;
  like_count : Z
}.

Definition author_attributes : list string :=
  ["id"; "username"; "email"; "wallet_address"; "avatar_url"; "bio"].

Definition brief_attributes : list string := ["id"; "username"; "avatar_url"].

(** The two [include]s of [findById], [getAll] and [getTimeline]. *)
Definition with_includes (s : Store) (p : Post.attrs) : PostJSON :=
  mkPostJSON p
    (include_author author_attributes (Post.user_id p) s)
    (o ← Post.original_post_id p;
     orig ← head (filter (λ q, Post.id q = o) (rows (posts s)));
     Some (mkOriginalPost orig (include_author brief_attributes (Post.user_id orig) s))).

Definition findById (postId : Z) : Async (option PostJSON) :=
  post ← Db.findByPk postId;
  read (λ s, with_includes s <$> post).

Definition create (userId : Z) (content : string) : Async (option PostJSON) :=
  created_at ← now;
  post ← Db.create (λ i, Post.mk i userId content 0 0 0 None false None created_at);
  findById (Post.id post).

Section Writes.
Context {dialect : Dialect}.

Definition retweet (userId originalPostId : Z) (content : option string)
    : Async (option PostJSON) :=
  originalPost ← Db.findByPk originalPostId;
  match originalPost with
  | None => throw (Error "Original post not found")
  | Some originalPost =>
      created_at ← now;
      retweet ← Db.create (λ i,
        Post.mk i userId (default "" content) 0 0 0 None true (Some originalPostId)
                created_at);
      Db.increment Post.retweets_count_c originalPost;;
      findById (Post.id retweet)
  end.

Definition with_author (s : Store) (c : Comment.attrs) : CommentWithAuthor :=
  mkCommentWithAuthor c (include_author brief_attributes (Comment.user_id c) s).

Definition addComment (userId postId : Z) (content : string) : Async CommentWithAuthor :=
  post ← Db.findByPk postId;
  match post with
  | None => throw (Error "Post not found")
  | Some post =>
      created_at ← now;
      comment ← Db.create (λ i,
        Comment.mk i userId postId content None created_at);
      Db.increment Post.comments_count_c post;;
      commentWithUser ← Db.findByPk (Comment.id comment);
      match commentWithUser with
      | Some c => read (λ s, with_author s c)
      | None => throw (TypeError "Cannot read properties of null (reading 'toJSON')")
      end
  end.

(** After the [await] of [decrement] or [increment], [post] is the instance
    as the call has left it. *)
Definition like (postId userId : Z) : Async LikeResult :=
  post ← Db.findByPk postId;
  match post with
  | None => throw (Error "Post not found")
  | Some post =>
      existingLike ← Db.findOne (λ l, Like.user_id l = userId ∧ Like.post_id l = postId);
      match existingLike with
      | Some existingLike =>
          Db.destroy existingLike;;
          post ← Db.decrement Post.likes_count_c post;
          mret (mkLikeResult false (Post.likes_count post - 1))
      | None =>
          Db.create (λ i, Like.mk i userId postId);;
          post ← Db.increment Post.likes_count_c post;
          mret (mkLikeResult true (Post.likes_count post + 1))
      end
  end.

End Writes.

Definition getComments (postId : Z) (limit offset : nat) : Async (list CommentJSON) :=
  read (λ s,
    let top_level :=
      filter (λ c, Comment.post_id c = postId ∧ Comment.parent_comment_id c = None)
             (rows (comments s)) in
    (λ c, mkCommentJSON (with_author s c)
            (with_author s <$>
               filter (λ r, Comment.parent_comment_id r = Some (Comment.id c))
                      (rows (comments s))))
      <$> page limit offset (order_desc Comment.created_at top_level)).

(** The body of the [posts.map] of [getAll] and [getTimeline]: reading a
    property of a null author throws. *)
Definition flatten (postData : PostJSON) : exn + PostData :=
  match author postData with
  | None => inl (TypeError "Cannot read properties of null (reading 'username')")
  | Some a =>
      inr (mkPostData postData (a !! "username") (a !! "wallet_address") (a !! "id")
             (Post.likes_count (row postData)) (Post.retweets_count (row postData)))
  end.

Fixpoint flatten_all (posts : list PostJSON) : exn + list PostData :=
  match posts with
  | [] => inr []
  | p :: posts' =>
      match flatten p with
      | inl e => inl e
      | inr d =>
          match flatten_all posts' with
          | inl e => inl e
          | inr ds => inr (d :: ds)
          end
      end
  end.

Definition getTimeline (userId : Z) (limit offset : nat) : Async (list PostData) :=
  following ← Db.findAll (λ f, Follow.follower_id f = userId);
  let followingIds := (Follow.following_id <$> following) ++ [userId] in
  posts ← read (λ s,
    with_includes s <$>
      page limit offset
        (order_desc Post.created_at
           (filter (λ p, Post.user_id p ∈ followingIds) (rows (table s)))));
  settle (flatten_all posts).

Section Search.
Context {fulltext : FullText}.

Definition search (query : string) (limit offset : nat)
    : Async (list (Post.attrs * option (gmap string JsVal))) :=
  let sanitizedQuery := sanitizedQuery query in
  match to_tsquery (sanitizedQuery +:+ ":*") with
  | None => throw (Error ("syntax error in tsquery: " +:+ sanitizedQuery +:+ ":*"))
  | Some q =>
      read (λ s,
        (λ p, (p, include_author ["id"; "username"; "email"; "wallet_address"; "avatar_url"]
                    (Post.user_id p) s))
          <$> page limit offset
                (order_desc Post.created_at
                   (filter (λ p, tsv_matches q (Post.content p) = true)
                           (rows (posts s)))))
  end.

End Search.

Definition isLikedBy (postId userId : Z) : Async bool :=
  like ← Db.findOne (λ l, Like.user_id l = userId ∧ Like.post_id l = postId);
  mret (bool_decide (is_Some like)).

(** [getAll]: [if (userId)] puts the author into the where clause; a
    missing, [NaN] or zero [userId] leaves it empty. *)
Definition whereClause (userId : option Z) (p : Post.attrs) : Prop :=
  match userId with
  | Some u => if decide (u = 0) then True else Post.user_id p = u
  | None => True
  end.

#[global] Instance whereClause_dec userId p : Decision (whereClause userId p).
Proof. unfold whereClause. destruct userId as [u|]; [case_decide|]; apply _. Defined.

Definition getAll (limit offset : nat) (userId : option Z) : Async (list PostData) :=
  posts ← read (λ s,
    with_includes s <$>
      page limit offset
        (order_desc Post.created_at (filter (whereClause userId) (rows (table s)))));
  settle (flatten_all posts).

Module LikeInfo.
Record t := mk {
  like_count : Z;
  user_liked : bool
}.
End LikeInfo.

Definition getLikeInfo (postId : Z) (userId : option Z) : Async LikeInfo.t :=
  post ← Db.findByPk postId;
  match post with
  | None => throw (Error "Post not found")
  | Some post =>
      let likeCount := Post.likes_count post in
      userLiked ← match userId with
                  | Some userId =>
                      if decide (userId = 0) then mret false else isLikedBy postId userId
                  | None => mret false
                  end;
      mret (LikeInfo.mk likeCount userLiked)
  end.

(** The object that [getPostsWithLikeInfo] builds from a post: its own
    properties, then [like_count], [user_liked] and [likes]. *)
Record WithLikeInfo (A : Type) := mkWithLikeInfo {
  plainPost : A;
  with_like_count : Z;
  with_user_liked : bool;
  with_likes : Z
}.
Arguments mkWithLikeInfo {A} _ _ _ _.
Arguments plainPost {A} _.
Arguments with_like_count {A} _.
Arguments with_user_liked {A} _.
Arguments with_likes {A} _.

(** [id] reads the [id] property of a post of the array, whatever the
    query it comes from. *)
Definition getPostsWithLikeInfo {A : Type} (id : A → Z) (posts : list A)
    (userId : option Z) : Async (list (WithLikeInfo A)) :=
  mapM (λ plainPost,
          likeInfo ← getLikeInfo (id plainPost) userId;
          mret (mkWithLikeInfo plainPost (LikeInfo.like_count likeInfo)
                  (LikeInfo.user_liked likeInfo) (LikeInfo.like_count likeInfo)))
       posts.

(** [Post.destroy({ where })] under the [ON DELETE] rules that the
    associations of [config/database.js] give the foreign keys: the
    comments and the likes of a deleted post go with it
    ([onDelete: 'CASCADE']); a retweet of a deleted post and a reply to a
    deleted comment stay and lose their reference (the rule of an
    association that names none, on a nullable key). *)
Definition forget_original (ids : list Z) (p : Post.attrs) : Post.attrs :=
  match Post.original_post_id p with
  | Some o =>
      if decide (o ∈ ids)
      then Post.mk (Post.id p) (Post.user_id p) (Post.content p) (Post.likes_count p)
             (Post.retweets_count p) (Post.comments_count p) (Post.parent_id p)
             (Post.is_retweet p) None (Post.created_at p)
      else p
  | None => p
  end.

Definition forget_parent (ids : list Z) (c : Comment.attrs) : Comment.attrs :=
  match Comment.parent_comment_id c with
  | Some parent =>
      if decide (parent ∈ ids)
      then Comment.mk (Comment.id c) (Comment.user_id c) (Comment.post_id c)
             (Comment.content c) None (Comment.created_at c)
      else c
  | None => c
  end.

Definition Post_destroy (P : Post.attrs → Prop) `{∀ p, Decision (P p)} : Async Z := λ s,
  let deleted := filter P (rows (posts s)) in
  let ids := Post.id <$> deleted in
  let gone := filter (λ c, Comment.post_id c ∈ ids) (rows (comments s)) in
  (inr (Z.of_nat (length deleted)),
   mkStore (users s)
     (mkTable (forget_original ids <$> filter (λ p, ¬ P p) (rows (posts s)))
              (serial (posts s)))
     (mkTable (forget_parent (Comment.id <$> gone)
                 <$> filter (λ c, Comment.post_id c ∉ ids) (rows (comments s)))
              (serial (comments s)))
     (follows s)
     (mkTable (filter (λ l, Like.post_id l ∉ ids) (rows (table (R := Like.attrs) s)))
              (serial (table (R := Like.attrs) s)))
     (clock s)).

Definition delete (postId userId : Z) : Async bool :=
  result ← Post_destroy (λ p, Post.id p = postId ∧ Post.user_id p = userId);
  mret (bool_decide (0 < result)).

End PostModel.

(** ** [models/User.js] *)

(** [bcryptjs], [jsonwebtoken] and the [ILIKE] operator of the store. *)
Class Bcrypt := {
  bcrypt_hash : string → Z → string;
  bcrypt_compare : string → string → bool
}.

Class Jwt := {
  jwt_sign : Z → string
}.

Class ILike := {
  iLike : string → string → bool
}.

Module UserModel.

Record Ack := mkAck {
  success : bool;
  message : string
}.

Definition toJSON (user : option (gmap string JsVal)) : option (gmap string JsVal) :=
  match user with
  | None => None
  | Some userObj => Some (delete "password_hash" userObj)
  end.

(** The unique indexes of [users]: [username], [email], [wallet_address];
    a null never conflicts. *)
Definition conflicts (u v : User.attrs) : Prop :=
  User.username v = User.username u
  ∨ (is_Some (User.email u) ∧ User.email v = User.email u)
  ∨ (is_Some (User.wallet_address u) ∧ User.wallet_address v = User.wallet_address u).

#[export] Instance conflicts_dec u v : Decision (conflicts u v).
Proof. unfold conflicts. apply _. Defined.

Definition User_create (build : Z → User.attrs) : Async User.attrs := λ s,
  if decide (Exists (conflicts (build (serial (users s)))) (rows (users s)))
  then (inl UniqueConstraintError, s)
  else Db.create build s.

(** [User.update(values, { where: { id } })] *)
Definition set_columns (values : gmap string (option string)) (u : User.attrs) : User.attrs :=
  User.mk (User.id u) (User.username u) (User.email u) (User.password_hash u)
    (User.wallet_address u)
    (default (User.bio u) (values !! "bio"))
    (default (User.avatar_url u) (values !! "avatar_url"))
    (default (User.cover_url u) (values !! "cover_url"))
    (default (User.location u) (values !! "location"))
    (default (User.website u) (values !! "website"))
    (User.created_at u).

Definition User_update (values : gmap string (option string)) (userId : Z) : Async () := λ s,
  let t := users s in
  (inr (),
   set_table (mkTable ((λ u, if decide (User.id u = userId) then set_columns values u else u)
                         <$> rows t) (serial t)) s).

Section Identity.
Context {bcrypt : Bcrypt} {ilike : ILike}.

Definition create (username : string) (email password wallet_address : option string)
    : Async (option (gmap string JsVal)) :=
  let password_hash :=
    match password with
    | Some p => if decide (p = "") then None else Some (bcrypt_hash p 10)
    | None => None
    end in
  created_at ← now;
  user ← User_create (λ i,
    User.mk i username email password_hash wallet_address
      (Some ("Hey there! I'm " +:+ username))
      (Some ("https://ui-avatars.com/api/?name=" +:+ username +:+ "&background=random"))
      (Some "") (Some "") (Some "") created_at);
  mret (toJSON (Some (dataValues user))).

Definition findByUsername (username : string) : Async (option (gmap string JsVal)) :=
  user ← Db.findOne (λ u, User.username u = username);
  mret (match user with
        | Some user => toJSON (Some (dataValues user))
        | None => None
        end).

Definition findById (id : Z) (includeStats : bool) : Async (option (gmap string JsVal)) :=
  user ← Db.findByPk id;
  match user with
  | None => mret None
  | Some user =>
      match toJSON (Some (dataValues user)) with
      | None => throw (TypeError "Cannot set properties of null")
      | Some userData =>
          if includeStats then
            followersCount ← Db.count (λ f, Follow.following_id f = id);
            followingCount ← Db.count (λ f, Follow.follower_id f = id);
            mret (Some (<["following_count" := JNum followingCount]>
                          (<["followers_count" := JNum followersCount]> userData)))
          else mret (Some userData)
      end
  end.

Definition findByWallet (wallet_address : string) : Async (option (gmap string JsVal)) :=
  user ← Db.findOne (λ u, User.wallet_address u = Some wallet_address);
  mret (match user with
        | Some user => toJSON (Some (dataValues user))
        | None => None
        end).

Definition validatePassword (password hash : string) : Async bool :=
  mret (bcrypt_compare password hash).

Definition allowedFields : list string :=
  ["bio"; "avatar_url"; "cover_url"; "location"; "website"].

Definition updateProfile (userId : Z) (updates : gmap string (option string))
    : Async (option (gmap string JsVal)) :=
  let filteredUpdates :=
    foldl (λ acc field,
             match updates !! field with
             | Some v => <[field := v]> acc
             | None => acc
             end) ∅ allowedFields in
  User_update filteredUpdates userId;;
  findById userId true.

Definition follow (followerId followingId : Z) : Async Ack :=
  if decide (followerId = followingId) then throw (Error "Cannot follow yourself")
  else
    '(follow, created) ← Db.findOrCreate
        (λ f, Follow.follower_id f = followerId ∧ Follow.following_id f = followingId)
        (λ i, Follow.mk i followerId followingId);
    if negb created then throw (Error "Already following this user")
    else mret (mkAck true "Successfully followed user").

Definition unfollow (followerId followingId : Z) : Async Ack :=
  result ← Db.destroy_where
    (λ f, Follow.follower_id f = followerId ∧ Follow.following_id f = followingId);
  if decide (result = 0) then throw (Error "Not following this user")
  else mret (mkAck true "Successfully unfollowed user").

Definition isFollowing (followerId followingId : Z) : Async bool :=
  follow ← Db.findOne
    (λ f, Follow.follower_id f = followerId ∧ Follow.following_id f = followingId);
  mret (bool_decide (is_Some follow)).

Definition public_attributes : list string := ["id"; "username"; "avatar_url"; "bio"].

(** The users joined through [follows] on one side of the edge. *)
Definition through (near far : Follow.attrs → Z) (userId : Z) (s : Store)
    : list (gmap string JsVal) :=
  f ← filter (λ f, near f = userId) (rows (follows s));
  u ← filter (λ u, User.id u = far f) (rows (users s));
  [select public_attributes (dataValues u)].

Definition getFollowers (userId : Z) (limit offset : nat)
    : Async (list (option (gmap string JsVal))) :=
  user ← Db.findByPk (R := User.attrs) userId;
  match user with
  | Some _ =>
      followers ← read (λ s,
        page limit offset (through Follow.following_id Follow.follower_id userId s));
      mret ((λ f, toJSON (Some f)) <$> followers)
  | None => mret []
  end.

Definition getFollowing (userId : Z) (limit offset : nat)
    : Async (list (option (gmap string JsVal))) :=
  user ← Db.findByPk (R := User.attrs) userId;
  match user with
  | Some _ =>
      following ← read (λ s,
        page limit offset (through Follow.follower_id Follow.following_id userId s));
      mret ((λ f, toJSON (Some f)) <$> following)
  | None => mret []
  end.

Definition search (query : string) (limit offset : nat)
    : Async (list (option (gmap string JsVal))) :=
  users ← read (λ s,
    page limit offset
      (filter (λ u, iLike ("%" +:+ query +:+ "%") (User.username u) = true)
              (rows (users s))));
  mret ((λ u, toJSON (Some (select public_attributes (dataValues u)))) <$> users).

End Identity.

End UserModel.

(** ** The [/login] route of [routes/auth.js] *)

Module AuthRoutes.

Inductive Body :=
| ErrorBody (error : string)
| UserBody (message : string) (user : gmap string JsVal).

Record Response := mkResponse {
  status : Z;
  cookie : option string;
  body : Body
}.

Definition truthy (v : option JsVal) : bool :=
  match v with
  | Some (JStr s) => bool_decide (s ≠ "")
  | Some (JNum n) => bool_decide (n ≠ 0)
  | Some JNull | None => false
  end.

Definition try_catch {A : Type} (m : Async A) (handler : exn → Async A) : Async A := λ s,
  match m s with
  | (inl e, s') => handler e s'
  | (inr a, s') => (inr a, s')
  end.

Section Login.
Context {bcrypt : Bcrypt} {jwt : Jwt}.

Definition generateToken (userId : option JsVal) : string :=
  match userId with
  | Some (JNum i) => jwt_sign i
  | _ => jwt_sign 0
  end.

(** [username] and [password] are the two properties read from the
    request body: strings, or absent. *)
Definition login (username password : option string) : Async Response :=
  try_catch
    (match username, password with
     | Some username, Some password =>
         if decide (username = "" ∨ password = "")
         then mret (mkResponse 400 None (ErrorBody "Username and password are required"))
         else
           user ← UserModel.findByUsername username;
           match user with
           | None => mret (mkResponse 400 None (ErrorBody "Invalid credentials"))
           | Some user =>
               if negb (truthy (user !! "password_hash"))
               then mret (mkResponse 400 None (ErrorBody "Invalid credentials"))
               else
                 match user !! "password_hash" with
                 | Some (JStr hash) =>
                     isValidPassword ← UserModel.validatePassword password hash;
                     if negb isValidPassword
                     then mret (mkResponse 400 None (ErrorBody "Invalid credentials"))
                     else
                       let token := generateToken (user !! "id") in
                       mret (mkResponse 200 (Some token)
                               (UserBody "Login successful"
                                  (select ["id"; "username"; "email"; "wallet_address";
                                           "avatar_url"; "bio"; "created_at"] user)))
                 | _ => throw (Error "Illegal arguments: string, number")
                 end
           end
     | _, _ => mret (mkResponse 400 None (ErrorBody "Username and password are required"))
     end)
    (λ error, mret (mkResponse 500 None (ErrorBody "Internal server error"))).

End Login.

(** The class [[a-zA-Z0-9_]]. *)
Definition is_word_char (c : ascii) : bool :=
  let n := nat_of_ascii c in
  bool_decide ((48 ≤ n ∧ n ≤ 57) ∨ (65 ≤ n ∧ n ≤ 90) ∨ (97 ≤ n ∧ n ≤ 122) ∨ n = 95)%nat.

(** The class [[a-fA-F0-9]]. *)
Definition is_hex_digit (c : ascii) : bool :=
  let n := nat_of_ascii c in
  bool_decide ((48 ≤ n ∧ n ≤ 57) ∨ (65 ≤ n ∧ n ≤ 70) ∨ (97 ≤ n ∧ n ≤ 102))%nat.

(** The test of the user name: one or more code units of the class, from
    the start of the string to its end. *)
Definition valid_username (username : string) : bool :=
  let l := String.list_ascii_of_string username in
  bool_decide (l ≠ []) && forallb is_word_char l.

(** The test of the wallet address: zero, x, then exactly forty
    hexadecimal digits, from the start of the string to its end. *)
Definition valid_wallet (walletAddress : string) : bool :=
  match String.list_ascii_of_string walletAddress with
  | "0"%char :: "x"%char :: digits =>
      bool_decide (length digits = 40%nat) && forallb is_hex_digit digits
  | _ => false
  end.

(** [String.prototype.toLowerCase], on the code units below 128. *)
Definition lower (c : ascii) : ascii :=
  let n := nat_of_ascii c in
  if bool_decide (65 ≤ n ∧ n ≤ 90)%nat then ascii_of_nat (n + 32) else c.

Definition toLowerCase (s : string) : string :=
  String.string_of_list_ascii (lower <$> String.list_ascii_of_string s).

(** [v || null] *)
Definition or_null (v : option JsVal) : JsVal :=
  if truthy v then default JNull v else JNull.

Section Register.
Context {bcrypt : Bcrypt} {jwt : Jwt}.

(** [POST /register]; [username], [email] and [password] are the three
    properties read from the request body: strings, or absent. *)
Definition register (username email password : option string) : Async Response :=
  try_catch
    (match username, password with
     | Some username, Some password =>
         if decide (username = "" ∨ password = "")
         then mret (mkResponse 400 None (ErrorBody "Username and password are required"))
         else if decide (String.length username < 3)%nat
         then mret (mkResponse 400 None
                      (ErrorBody "Username must be at least 3 characters long"))
         else if negb (valid_username username)
         then mret (mkResponse 400 None
                      (ErrorBody "Username can only contain letters, numbers, and underscores"))
         else if decide (String.length password < 6)%nat
         then mret (mkResponse 400 None
                      (ErrorBody "Password must be at least 6 characters long"))
         else
           existingUser ← UserModel.findByUsername username;
           match existingUser with
           | Some _ => mret (mkResponse 400 None (ErrorBody "Username already exists"))
           | None =>
               existingEmail ← match email with
                               | Some e =>
                                   if decide (e = "") then mret None
                                   else Db.findOne (λ u, User.email u = Some e)
                               | None => mret None
                               end;
               match existingEmail with
               | Some _ => mret (mkResponse 400 None (ErrorBody "Email already exists"))
               | None =>
                   user ← UserModel.create username email (Some password) None;
                   match user with
                   | None =>
                       throw (TypeError "Cannot read properties of null (reading 'id')")
                   | Some user =>
                       let token := generateToken (user !! "id") in
                       mret (mkResponse 201 (Some token)
                               (UserBody "User registered successfully"
                                  (<["email" := or_null (user !! "email")]>
                                     (select ["id"; "username"; "avatar_url"; "bio";
                                              "created_at"] user))))
                   end
               end
           end
     | _, _ => mret (mkResponse 400 None (ErrorBody "Username and password are required"))
     end)
    (λ error, mret (mkResponse 500 None (ErrorBody "Internal server error"))).

(** The end of [POST /metamask], for the user found or created. *)
Definition wallet_session (user : option (gmap string JsVal)) : Async Response :=
  match user with
  | None => throw (TypeError "Cannot read properties of null (reading 'id')")
  | Some user =>
      let token := generateToken (user !! "id") in
      mret (mkResponse 200 (Some token)
              (UserBody (if truthy (user !! "created_at") then "Login successful"
                         else "Registration successful")
                 (match user !! "wallet_address" with
                  | Some v => <["walletAddress" := v]>
                  | None => id
                  end (select ["id"; "username"; "avatar_url"; "bio"; "created_at"] user))))
  end.

(** [POST /metamask]; [walletAddress] and [username] are the two
    properties read from the request body: strings, or absent. *)
Definition metamask (walletAddress username : option string) : Async Response :=
  try_catch
    (match walletAddress with
     | None => mret (mkResponse 400 None (ErrorBody "Wallet address is required"))
     | Some walletAddress =>
         if decide (walletAddress = "")
         then mret (mkResponse 400 None (ErrorBody "Wallet address is required"))
         else if negb (valid_wallet walletAddress)
         then mret (mkResponse 400 None (ErrorBody "Invalid wallet address format"))
         else
           user ← UserModel.findByWallet walletAddress;
           match user with
           | Some user => wallet_session (Some user)
           | None =>
               match username with
               | None =>
                   mret (mkResponse 400 None
                           (ErrorBody "Username is required for new MetaMask users"))
               | Some username =>
                   if decide (username = "")
                   then mret (mkResponse 400 None
                                (ErrorBody "Username is required for new MetaMask users"))
                   else if decide (String.length username < 3)%nat
                   then mret (mkResponse 400 None
                                (ErrorBody "Username must be at least 3 characters long"))
                   else if negb (valid_username username)
                   then mret (mkResponse 400 None
                                (ErrorBody
                                   "Username can only contain letters, numbers, and underscores"))
                   else
                     existingUsername ← UserModel.findByUsername username;
                     match existingUsername with
                     | Some _ =>
                         mret (mkResponse 400 None (ErrorBody "Username already exists"))
                     | None =>
                         user ← UserModel.create username None None
                                  (Some (toLowerCase walletAddress));
                         wallet_session user
                     end
               end
           end
     end)
    (λ error, mret (mkResponse 500 None (ErrorBody "Internal server error"))).

End Register.

End AuthRoutes.

(** ** The routes of [routes/posts.js] that list and create posts *)

Module PostRoutes.

Inductive Body :=
| ErrorBody (error : string)
| PostsBody (posts : list (PostModel.WithLikeInfo PostModel.PostData)) (page limit : Z)
| PostBody (post : option (PostModel.WithLikeInfo PostModel.PostJSON)).

Record Response := mkResponse {
  status : Z;
  body : Body
}.

(** [parseInt(x) || d], [x] being what [parseInt] yields ([None] for
    [NaN]). *)
Definition or_default (x : option Z) (d : Z) : Z :=
  match x with
  | Some n => if decide (n = 0) then d else n
  | None => d
  end.

(** A query with [LIMIT] and [OFFSET]: the store refuses negative ones. *)
Definition paged {A : Type} (limit offset : Z) (query : nat → nat → Async A) : Async A :=
  if decide (limit < 0) then throw (Error "LIMIT must not be negative")
  else if decide (offset < 0) then throw (Error "OFFSET must not be negative")
  else query (Z.to_nat limit) (Z.to_nat offset).

Definition js_trim (s : string) : string :=
  String.string_of_list_ascii (trim (String.list_ascii_of_string s)).

(** [GET /].  [user] is the id of [req.user], if any; [page] and [limit]
    are the parsed query parameters; [userId] is [None] for a missing or
    empty parameter and otherwise what [parseInt] yields. *)
Definition listPosts (user : option Z) (page limit : option Z) (timeline : bool)
    (userId : option (option Z)) : Async Response :=
  AuthRoutes.try_catch
    (let page := or_default page 1 in
     let limit := or_default limit 20 in
     let offset := (page - 1) * limit in
     posts ← match timeline, user with
             | true, Some id => paged limit offset (PostModel.getTimeline id)
             | _, _ =>
                 match userId with
                 | Some parsed =>
                     paged limit offset (λ limit offset, PostModel.getAll limit offset parsed)
                 | None =>
                     paged limit offset (λ limit offset, PostModel.getAll limit offset None)
                 end
             end;
     postsWithLikes ← PostModel.getPostsWithLikeInfo
                        (λ d, Post.id (PostModel.row (PostModel.json d))) posts user;
     mret (mkResponse 200 (PostsBody postsWithLikes page limit)))
    (λ error, mret (mkResponse 500 (ErrorBody "Internal server error"))).

(** [POST /], for the authenticated user [userId]; [content] is the
    property of the body, a string or absent. *)
Definition createPost (userId : Z) (content : option string) : Async Response :=
  AuthRoutes.try_catch
    (match content with
     | None => mret (mkResponse 400 (ErrorBody "Post content is required"))
     | Some content =>
         if decide (content = "" ∨ js_trim content = "")
         then mret (mkResponse 400 (ErrorBody "Post content is required"))
         else if decide (280 < String.length content)%nat
         then mret (mkResponse 400
                      (ErrorBody "Post content must be 280 characters or less"))
         else
           post ← PostModel.create userId (js_trim content);
           match post with
           | None => throw (TypeError "Cannot read properties of null (reading 'toJSON')")
           | Some post =>
               postWithLikes ← PostModel.getPostsWithLikeInfo
                                 (λ j, Post.id (PostModel.row j)) [post] (Some userId);
               mret (mkResponse 201 (PostBody (head postWithLikes)))
           end
     end)
    (λ error, mret (mkResponse 500 (ErrorBody "Internal server error"))).

End PostRoutes.

(** * Properties *)

(** ** Store constraints and invariants *)

(** The primary key of a table: ids are distinct and below the serial. *)
Definition primary_key {R : Type} `{Model R} (t : Table R) : Prop :=
  NoDup (pk <$> rows t) ∧ Forall (λ r, pk r < serial t) (rows t).

(** The unique index of [likes] on [(user_id, post_id)]. *)
Definition like_pair (l : Like.attrs) : Z * Z := (Like.user_id l, Like.post_id l).

Definition likes_unique (s : Store) : Prop := NoDup (like_pair <$> rows (likes s)).

(** Every stored [likes_count] is the number of [Like] rows of the post. *)
Definition likes_counted (s : Store) : Prop :=
  ∀ p, p ∈ rows (posts s) →
    Post.likes_count p
    = Z.of_nat (length (filter (λ l, Like.post_id l = Post.id p) (rows (likes s)))).

(** A sequence of [like] calls, each on a [(postId, userId)] pair. *)
Definition toggle_all {dialect : Dialect} (calls : list (Z * Z)) (s : Store) : Store :=
  foldl (λ s call, exec (PostModel.like call.1 call.2) s) s calls.

(** [SET likes_count = likes_count + d WHERE id = postId] on the rows. *)
Definition bump (c : Post.counter) (d : Z) (postId : Z) (l : list Post.attrs)
    : list Post.attrs :=
  (λ p, if decide (Post.id p = postId) then Post.add c d p else p) <$> l.

(** The instance that [like] reads its count from after the counter has
    moved by [d]. *)
Definition after_await {dialect : Dialect} (d : Z) (post : Post.attrs) : Post.attrs :=
  if returning then Post.add Post.likes_count_c d post else post.

(** The calls of the write interface, and what a sequence of them leaves. *)
Inductive call :=
| CallCreate (userId : Z) (content : string)
| CallRetweet (userId originalPostId : Z) (content : option string)
| CallAddComment (userId postId : Z) (content : string)
| CallLike (postId userId : Z)
| CallFollow (followerId followingId : Z)
| CallUnfollow (followerId followingId : Z).

Definition perform {dialect : Dialect} (c : call) (s : Store) : Store :=
  match c with
  | CallCreate userId content => exec (PostModel.create userId content) s
  | CallRetweet userId originalPostId content =>
      exec (PostModel.retweet userId originalPostId content) s
  | CallAddComment userId postId content =>
      exec (PostModel.addComment userId postId content) s
  | CallLike postId userId => exec (PostModel.like postId userId) s
  | CallFollow a b => exec (UserModel.follow a b) s
  | CallUnfollow a b => exec (UserModel.unfollow a b) s
  end.

Definition perform_all {dialect : Dialect} (calls : list call) (s : Store) : Store :=
  foldl (λ s c, perform c s) s calls.

(** No comment row has a parent. *)
Definition all_top_level (s : Store) : Prop :=
  Forall (λ c, Comment.parent_comment_id c = None) (rows (comments s)).

(** The follow edge from [a] to [b]. *)
Definition edge (a b : Z) (f : Follow.attrs) : Prop :=
  Follow.follower_id f = a ∧ Follow.following_id f = b.

#[export] Instance edge_dec a b f : Decision (edge a b f).
Proof. unfold edge. apply _. Defined.

(** The posts of a user's timeline: the user's own and those of the users
    the user follows. *)
Definition in_timeline (u : Z) (s : Store) (p : Post.attrs) : Prop :=
  Post.user_id p = u ∨ Exists (edge u (Post.user_id p)) (rows (follows s)).

#[export] Instance in_timeline_dec u s p : Decision (in_timeline u s p).
Proof. unfold in_timeline. apply _. Defined.

(** Every post has its author row (the foreign key of [posts.user_id]). *)
Definition authors_exist (s : Store) : Prop :=
  Forall (λ p, Exists (λ u, User.id u = Post.user_id p) (rows (users s))) (rows (posts s)).

(** The rows of the posts that a feed returns. *)
Definition feed_rows (data : list PostModel.PostData) : list Post.attrs :=
  (λ d, PostModel.row (PostModel.json d)) <$> data.

(** The timeline claim read without pagination: the call returns exactly
    the posts of the timeline, newest first. *)
Definition returns_whole_timeline (u : Z) (limit offset : nat) (s : Store) : Prop :=
  ∃ data,
    eval (PostModel.getTimeline u limit offset) s = inr data
    ∧ feed_rows data ≡ₚ filter (in_timeline u s) (rows (posts s))
    ∧ StronglySorted (newest_first Post.created_at) (feed_rows data).

(** An outward-facing user object shows no credential hash. *)
Definition hides_hash (o : gmap string JsVal) : Prop := o !! "password_hash" = None.

(** The two dialect settings, and stand-ins for the external libraries in
    the worked examples. *)
Definition plain_dialect : Dialect := {| returning := false |}.

Definition postgres_dialect : Dialect := {| returning := true |}.

Definition demo_bcrypt : Bcrypt := {|
  bcrypt_hash password rounds := "$2a$10$" +:+ password;
  bcrypt_compare password hash := bool_decide (hash = "$2a$10$" +:+ password)
|}.

Definition demo_ilike : ILike := {|
  iLike pattern text := true
|}.

Definition demo_jwt : Jwt := {|
  jwt_sign userId := "token"
|}.

(** A freshly synchronised database, and a small populated one. *)
Definition empty_store : Store :=
  mkStore (mkTable [] 1) (mkTable [] 1) (mkTable [] 1) (mkTable [] 1) (mkTable [] 1) 0.

Definition ann : User.attrs :=
  User.mk 1 "ann" None (Some "$2a$10$hash") None None None None None None 5.

Definition bob : User.attrs :=
  User.mk 2 "bob" None None None None None None None None 6.

Definition demo_store : Store :=
  mkStore (mkTable [ann; bob] 3)
    (mkTable [Post.mk 1 1 "first" 0 0 0 None false None 10;
              Post.mk 2 1 "second" 1 0 0 None false None 20;
              Post.mk 3 2 "third" 0 0 0 None false None 30] 4)
    (mkTable [] 1)
    (mkTable [] 1)
    (mkTable [Like.mk 1 2 2] 2)
    40.

(** ** The three denormalised counters *)

#[export] Instance counter_eq_dec : EqDecision Post.counter.
Proof. solve_decision. Defined.

Definition counter_of (c : Post.counter) (p : Post.attrs) : Z :=
  match c with
  | Post.likes_count_c => Post.likes_count p
  | Post.retweets_count_c => Post.retweets_count p
  | Post.comments_count_c => Post.comments_count p
  end.

(** The post ids that the rows behind a counter refer to: one entry per
    [Like] row, per [Comment] row, per post that points at an original. *)
Definition references (c : Post.counter) (s : Store) : list Z :=
  match c with
  | Post.likes_count_c => Like.post_id <$> rows (likes s)
  | Post.comments_count_c => Comment.post_id <$> rows (comments s)
  | Post.retweets_count_c => omap Post.original_post_id (rows (posts s))
  end.

Definition occurrences (i : Z) (l : list Z) : Z :=
  Z.of_nat (length (filter (λ j, j = i) l)).

Definition counted_rows (c : Post.counter) (l : list Post.attrs) (refs : list Z) : Prop :=
  ∀ p, p ∈ l → counter_of c p = occurrences (Post.id p) refs.

(** The constraints of the store that the counters rest on, and the
    agreement of every counter of every post with its rows. *)
Definition consistent (s : Store) : Prop :=
  primary_key (posts s) ∧ primary_key (likes s)
  ∧ (∀ c, Forall (λ i, i < serial (posts s)) (references c s))
  ∧ (∀ c, counted_rows c (rows (posts s)) (references c s)).

(** The counters as a reader of the tables sees them. *)
Definition comments_counted (s : Store) : Prop :=
  ∀ p, p ∈ rows (posts s) →
    Post.comments_count p
    = Z.of_nat (length (filter (λ c, Comment.post_id c = Post.id p) (rows (comments s)))).

Definition retweets_counted (s : Store) : Prop :=
  ∀ p, p ∈ rows (posts s) →
    Post.retweets_count p
    = Z.of_nat (length (filter (λ q, Post.original_post_id q = Some (Post.id p))
                               (rows (posts s)))).

(** A first session on an empty database. *)
Definition first_calls : list call :=
  [CallCreate 1 "hello"; CallCreate 2 "world"; CallRetweet 2 1 (Some "look");
   CallAddComment 2 1 "nice"; CallLike 1 2; CallAddComment 1 1 "thanks";
   CallRetweet 1 1 None; CallLike 1 2; CallLike 2 1; CallFollow 1 2].

(** The post rows of a listing response, none when the request failed. *)
Definition response_rows (r : (exn + PostRoutes.Response) * Store) : list Post.attrs :=
  match r.1 with
  | inr (PostRoutes.mkResponse _ (PostRoutes.PostsBody posts _ _)) =>
      (λ e, PostModel.row (PostModel.json (PostModel.plainPost e))) <$> posts
  | _ => []
  end.

(** What a viewer's [user_liked] must be for a post. *)
Definition viewer_liked (viewer : option Z) (postId : Z) (s : Store) : bool :=
  match viewer with
  | Some u =>
      if decide (u = 0) then false
      else bool_decide ((u, postId) ∈ like_pair <$> rows (likes s))
  | None => false
  end.

Definition session_store : Store :=
  perform_all (dialect := postgres_dialect) first_calls empty_store.

(** The user [id] has a row: what the foreign keys of [follows] ask of
    both ends of an edge. *)
Definition registered (id : Z) (s : Store) : Prop :=
  Exists (λ u, User.id u = id) (rows (users s)).

(** A row already holds one of the identities of a user to be created:
    the same user name, or the same e-mail or wallet address when one is
    given. *)
Definition taken (username : string) (email wallet_address : option string)
    (u : User.attrs) : Prop :=
  User.username u = username
  ∨ (is_Some email ∧ User.email u = email)
  ∨ (is_Some wallet_address ∧ User.wallet_address u = wallet_address).

#[global] Instance taken_dec username email wallet_address u :
  Decision (taken username email wallet_address u).
Proof. unfold taken. apply _. Defined.

(** The limits of the [STRING(n)] columns of [users]. *)
Definition fits_columns (username : string) (email wallet_address : option string) : Prop :=
  (String.length username ≤ 50)%nat
  ∧ (∀ e, email = Some e → String.length e ≤ 100)%nat
  ∧ (∀ w, wallet_address = Some w → String.length w ≤ 42)%nat.

Definition unique_usernames (s : Store) : Prop :=
  NoDup (User.username <$> rows (users s)).

(** No two posts were created at the same instant, so that the order
    by [created_at] is the same in every query. *)
Definition distinct_times (s : Store) : Prop :=
  NoDup (Post.created_at <$> rows (posts s)).

(** ** Generic facts on rows *)

Lemma head_filter_Some {A : Type} (P : A → Prop) `{∀ x, Decision (P x)} (l : list A) (x : A) :
  head (filter P l) = Some x → x ∈ l ∧ P x.
Proof.
  intros Hh.
  assert (Hin : x ∈ filter P l).
  { destruct (filter P l) as [|y l'] eqn:E; simplify_eq/=. left. }
  apply list_elem_of_filter in Hin. tauto.
Qed.

Lemma head_filter_None {A : Type} (P : A → Prop) `{∀ x, Decision (P x)} (l : list A) :
  head (filter P l) = None → ∀ x, x ∈ l → ¬ P x.
Proof.
  intros Hh x Hx HP.
  assert (Hin : x ∈ filter P l) by (apply list_elem_of_filter; done).
  destruct (filter P l); simplify_eq/=. by apply elem_of_nil in Hin.
Qed.

Lemma add_id c d p : Post.id (Post.add c d p) = Post.id p.
Proof. by destruct c. Qed.

Lemma bump_head c d postId (l : list Post.attrs) :
  head (filter (λ p, Post.id p = postId) (bump c d postId l))
  = Post.add c d <$> head (filter (λ p, Post.id p = postId) l).
Proof.
  induction l as [|p l IH]; [done|].
  unfold bump in *. rewrite fmap_cons. destruct (decide (Post.id p = postId)) as [E|E].
  - rewrite (filter_cons_True _ (Post.add c d p)) by (by rewrite add_id).
    by rewrite (filter_cons_True _ p) by done.
  - rewrite !filter_cons_False by done. apply IH.
Qed.

(** ** The engagement ledger *)

(** What [increment] and [decrement] do and yield. *)
Lemma arithmetic_run {dialect : Dialect} c d (instance : Post.attrs) (s : Store) :
  Db.arithmetic c d instance s
  = (inr (if returning
          then default instance
                 (head (filter (λ p, Post.id p = Post.id instance)
                               (bump c d (Post.id instance) (rows (posts s)))))
          else instance),
     mkStore (users s)
       (mkTable (bump c d (Post.id instance) (rows (posts s))) (serial (posts s)))
       (comments s) (follows s) (likes s) (clock s)).
Proof.
  unfold Db.arithmetic, Db.update_instance, Db.findByPk, mbind, async_bind, mret,
    async_ret. simpl. by destruct returning.
Qed.

(** What one [like] call does to the store, case by case. *)
Lemma like_step {dialect : Dialect} (postId userId : Z) (s : Store) :
  PostModel.like postId userId s =
  match head (filter (λ p, Post.id p = postId) (rows (posts s))) with
  | None => (inl (Error "Post not found"), s)
  | Some post =>
      match head (filter (λ l, Like.user_id l = userId ∧ Like.post_id l = postId)
                         (rows (likes s))) with
      | Some existingLike =>
          (inr (PostModel.mkLikeResult false
                  (Post.likes_count (after_await (-1) post) - 1)),
           mkStore (users s)
             (mkTable (bump Post.likes_count_c (-1) postId (rows (posts s)))
                      (serial (posts s)))
             (comments s) (follows s)
             (mkTable (filter (λ l, Like.id l ≠ Like.id existingLike) (rows (likes s)))
                      (serial (likes s)))
             (clock s))
      | None =>
          (inr (PostModel.mkLikeResult true
                  (Post.likes_count (after_await 1 post) + 1)),
           mkStore (users s)
             (mkTable (bump Post.likes_count_c 1 postId (rows (posts s)))
                      (serial (posts s)))
             (comments s) (follows s)
             (mkTable (rows (likes s) ++ [Like.mk (serial (likes s)) userId postId])
                      (serial (likes s) + 1))
             (clock s))
      end
  end.
Proof.
  unfold PostModel.like, Db.findByPk, Db.findOne, Db.destroy, Db.create, Db.increment,
    Db.decrement, after_await, mbind, async_bind, mret, async_ret.
  cbn -[Db.arithmetic bump].
  destruct (head (filter _ (rows (posts s)))) as [post|] eqn:Hp; [|reflexivity].
  apply head_filter_Some in Hp as Hp'. destruct Hp' as [_ Hid].
  destruct (head (filter _ (rows (likes s)))) as [l|];
    rewrite arithmetic_run; cbn -[bump]; rewrite bump_head, Hid, Hp;
    by destruct returning.
Qed.



(** Where the counter update refreshes the instance ([returning = true],
    the default of the ORM on PostgreSQL), the count that [like] returns
    is one step further than the stored one: the count read before the
    call plus two after a like, minus two after an unlike. *)
Lemma like_count_when_returning {dialect : Dialect} (postId userId : Z) (s : Store)
    (post : Post.attrs) (r : PostModel.LikeResult) :
  returning = true →
  eval (Db.findByPk postId) s = inr (Some post) →
  eval (PostModel.like postId userId) s = inr r →
  PostModel.like_count r
  = Post.likes_count post + (if PostModel.liked r then 2 else -2).
Proof.
  intros Hret Hp. unfold eval, Db.findByPk in *. simpl in Hp. injection Hp as Hp.
  rewrite like_step, Hp. unfold after_await. rewrite Hret.
  destruct (head (filter _ (rows (likes s)))); simpl; intros [= <-]; simpl; lia.
Qed.

Section PrimaryKey.
Context {R : Type} `{Model R}.

Lemma filter_other_ids (l : list R) (i : Z) :
  i ∉ pk <$> l → filter (λ r, pk r ≠ i) l = l.
Proof.
  induction l as [|r l IH]; [done|]. rewrite fmap_cons, not_elem_of_cons.
  intros [Hne Hl]. rewrite filter_cons_True by done. by rewrite IH.
Qed.

(** Deleting by id removes exactly the row that carries it. *)
Lemma delete_by_pk (l : list R) (x : R) :
  NoDup (pk <$> l) → x ∈ l → l ≡ₚ x :: filter (λ r, pk r ≠ pk x) l.
Proof.
  induction l as [|r l IH]; intros Hnd Hx; [by apply elem_of_nil in Hx|].
  rewrite fmap_cons in Hnd. apply NoDup_cons in Hnd as [Hr Hnd].
  apply elem_of_cons in Hx as [->|Hx].
  - rewrite filter_cons_False by tauto. by rewrite filter_other_ids.
  - assert (pk r ≠ pk x).
    { intros E. apply Hr. rewrite E. by apply list_elem_of_fmap_2. }
    rewrite filter_cons_True by done. rewrite (IH Hnd Hx) at 1. apply Permutation_swap.
Qed.

Lemma primary_key_delete (t : Table R) (i : Z) :
  primary_key t → primary_key (mkTable (filter (λ r, pk r ≠ i) (rows t)) (serial t)).
Proof.
  intros [Hnd Hlt]. split; simpl.
  - apply (sublist_NoDup _ (pk <$> rows t)); [done|]. apply fmap_sublist, sublist_filter.
  - rewrite Forall_forall in Hlt |- *. intros r Hr.
    apply list_elem_of_filter in Hr as [_ Hr]. by apply Hlt.
Qed.

Lemma primary_key_insert (t : Table R) (build : Z → R) :
  pk (build (serial t)) = serial t →
  primary_key t → primary_key (mkTable (rows t ++ [build (serial t)]) (serial t + 1)).
Proof.
  intros Hb [Hnd Hlt]. split; simpl.
  - rewrite fmap_app. apply NoDup_app. split; [done|]. split; [|apply NoDup_singleton].
    intros i Hi Hi'. apply list_elem_of_fmap in Hi as (r & -> & Hr).
    apply list_elem_of_singleton in Hi'. rewrite Hb in Hi'.
    rewrite Forall_forall in Hlt. specialize (Hlt r Hr). lia.
  - apply Forall_app. split.
    + eapply Forall_impl; [exact Hlt|]. simpl. intros. lia.
    + apply Forall_singleton. lia.
Qed.

Lemma fresh_serial (t : Table R) :
  primary_key t → serial t ∉ pk <$> rows t.
Proof.
  intros [_ Hlt] Hin. apply list_elem_of_fmap in Hin as (r & E & Hr).
  rewrite Forall_forall in Hlt. specialize (Hlt r Hr). lia.
Qed.

End PrimaryKey.

Lemma bump_id c d postId (l : list Post.attrs) :
  Post.id <$> bump c d postId l = Post.id <$> l.
Proof.
  unfold bump. rewrite <- list_fmap_compose. apply list_fmap_ext.
  intros i p _. simpl. case_decide; [apply add_id|done].
Qed.

Lemma add_add_cancel c d p : Post.add c (- d) (Post.add c d p) = p.
Proof.
  destruct p, c; unfold Post.add; simpl; f_equal; lia.
Qed.

Lemma bump_bump_cancel c d postId (l : list Post.attrs) :
  bump c (- d) postId (bump c d postId l) = l.
Proof.
  unfold bump. rewrite <- list_fmap_compose. rewrite <- (list_fmap_id l) at 2.
  apply list_fmap_ext. intros i p _. simpl. destruct (decide (Post.id p = postId)).
  - rewrite decide_True by (by rewrite add_id). apply add_add_cancel.
  - by rewrite decide_False.
Qed.

Lemma elem_of_bump c d postId (l : list Post.attrs) p' :
  p' ∈ bump c d postId l →
  ∃ p, p ∈ l ∧ p' = (if decide (Post.id p = postId) then Post.add c d p else p).
Proof.
  unfold bump. intros Hin. apply list_elem_of_fmap in Hin as (p & -> & Hp). eauto.
Qed.

Lemma likes_count_add d p :
  Post.likes_count (Post.add Post.likes_count_c d p) = Post.likes_count p + d.
Proof. done. Qed.

(** [like] keeps the primary key of [likes] and the agreement of every
    stored counter with the rows. *)
Lemma like_preserves {dialect : Dialect} (postId userId : Z) (s : Store) :
  primary_key (likes s) → likes_counted s →
  primary_key (likes (exec (PostModel.like postId userId) s))
  ∧ likes_counted (exec (PostModel.like postId userId) s).
Proof.
  intros Hpk Hc. unfold exec. rewrite like_step.
  destruct (head (filter _ (rows (posts s)))) as [post|] eqn:Hp; [|done].
  destruct (head (filter _ (rows (likes s)))) as [l|] eqn:Hl; simpl.
  - apply head_filter_Some in Hl as [Hin [_ Hlp]]. split.
    + exact (primary_key_delete (likes s) (Like.id l) Hpk).
    + intros p' Hp'. simpl in *. apply elem_of_bump in Hp' as (p & Hin' & ->).
      pose proof (Hc p Hin') as Hcp. destruct Hpk as [Hnd _].
      pose proof (delete_by_pk _ _ Hnd Hin) as Hperm.
      assert (Hlen : ∀ i, length (filter (λ r, Like.post_id r = i) (rows (likes s)))
        = length (filter (λ r, Like.post_id r = i)
            (l :: filter (λ r, Like.id r ≠ Like.id l) (rows (likes s))))).
      { intros i. by rewrite <- Hperm. }
      case_decide as E.
      * rewrite add_id, likes_count_add, Hcp, (Hlen (Post.id p)).
        rewrite filter_cons_True by congruence. simpl. lia.
      * rewrite Hcp, (Hlen (Post.id p)). rewrite filter_cons_False by congruence. done.
  - split.
    + exact (primary_key_insert (likes s) (λ i, Like.mk i userId postId) eq_refl Hpk).
    + intros p' Hp'. simpl in *. apply elem_of_bump in Hp' as (p & Hin' & ->).
      pose proof (Hc p Hin') as Hcp. rewrite filter_app, length_app.
      case_decide as E.
      * rewrite add_id, likes_count_add, Hcp. rewrite filter_cons_True by done.
        simpl. lia.
      * rewrite Hcp. rewrite filter_cons_False by (simpl; congruence). simpl. lia.
Qed.

(** C2. Counter consistency: from a store whose [likes] table has its
    primary key and where every post's [likes_count] is the number of its
    [Like] rows, any sequence of [like] calls, on any posts and users,
    present or absent, leads to a store where this still holds. *)
Theorem likes_count_invariant {dialect : Dialect} (calls : list (Z * Z)) (s : Store) :
  primary_key (likes s) → likes_counted s →
  primary_key (likes (toggle_all calls s)) ∧ likes_counted (toggle_all calls s).
Proof.
  revert s. induction calls as [|[postId userId] calls IH]; intros s Hpk Hc; [done|].
  simpl. destruct (like_preserves postId userId s Hpk Hc) as [Hpk' Hc'].
  by apply IH.
Qed.

Lemma demo_likes_key : primary_key (likes demo_store).
Proof.
  split; simpl.
  - apply (bool_decide_unpack _). vm_compute. reflexivity.
  - repeat constructor.
Defined.

Lemma demo_likes_counted : likes_counted demo_store.
Proof.
  unfold likes_counted. apply Forall_forall.
  apply (bool_decide_unpack _). vm_compute. reflexivity.
Defined.

Lemma likes_count_invariant_witness :
  primary_key (likes demo_store) ∧ likes_counted demo_store
  ∧ likes_counted (toggle_all (dialect := postgres_dialect)
                     [(2, 2); (1, 1); (3, 1); (9, 9); (1, 1)] demo_store).
Proof.
  split; [exact demo_likes_key|]. split; [exact demo_likes_counted|].
  exact (proj2 (likes_count_invariant (dialect := postgres_dialect)
                  [(2, 2); (1, 1); (3, 1); (9, 9); (1, 1)] demo_store
                  demo_likes_key demo_likes_counted)).
Defined.

Lemma NoDup_fmap_eq {A B : Type} (f : A → B) (l : list A) (x y : A) :
  NoDup (f <$> l) → x ∈ l → y ∈ l → f x = f y → x = y.
Proof.
  induction l as [|a l IH]; intros Hnd Hx Hy E; [by apply elem_of_nil in Hx|].
  rewrite fmap_cons in Hnd. apply NoDup_cons in Hnd as [Ha Hnd].
  apply elem_of_cons in Hx as [->|Hx]; apply elem_of_cons in Hy as [->|Hy]; auto.
  - exfalso. apply Ha. rewrite E. by apply list_elem_of_fmap_2.
  - exfalso. apply Ha. rewrite <- E. by apply list_elem_of_fmap_2.
Qed.

Lemma head_filter_nil {A : Type} (P : A → Prop) `{∀ x, Decision (P x)} (l : list A) :
  head (filter P l) = None → filter P l = [].
Proof. by destruct (filter P l). Qed.

Lemma filter_nil_intro {A : Type} (P : A → Prop) `{∀ x, Decision (P x)} (l : list A) :
  (∀ x, x ∈ l → ¬ P x) → filter P l = [].
Proof.
  intros HP. induction l as [|a l IH]; [done|].
  rewrite filter_cons_False by (apply HP; left). apply IH. intros x Hx. apply HP. by right.
Qed.

(** [isLikedBy] tells whether the pair has a row. *)
Lemma isLikedBy_pairs (postId userId : Z) (s : Store) :
  PostModel.isLikedBy postId userId s
  = (inr (bool_decide ((userId, postId) ∈ like_pair <$> rows (likes s))), s).
Proof.
  unfold PostModel.isLikedBy, Db.findOne, mbind, async_bind, mret, async_ret. simpl.
  do 2 f_equal. apply bool_decide_ext.
  destruct (head (filter _ (rows (likes s)))) as [l|] eqn:Hl.
  - apply head_filter_Some in Hl as [Hin [Hu Hp]]. split; [intros _|by eauto].
    apply list_elem_of_fmap. exists l. split; [|done]. unfold like_pair. by rewrite Hu, Hp.
  - split; [by intros [? ?]|]. intros Hin. exfalso.
    apply list_elem_of_fmap in Hin as (l & E & Hin). unfold like_pair in E.
    eapply head_filter_None in Hl; [|exact Hin]. apply Hl. by simplify_eq.
Qed.

(** C3. Toggling twice is an involution.  On a store that satisfies the
    primary key and the unique index of [likes], for a post that exists,
    two successive [like] calls for the same user and post both succeed,
    the first one reporting the opposite of the initial state and the
    second one the initial state; afterwards the posts table (hence every
    counter) is what it was, the [Like] rows cover the same pairs (so row
    existence is restored for every pair), and no other table has
    changed. *)
Theorem like_twice_restores {dialect : Dialect} (postId userId : Z) (s : Store)
    (post : Post.attrs) :
  primary_key (likes s) → likes_unique s →
  eval (Db.findByPk postId) s = inr (Some post) →
  let s1 := exec (PostModel.like postId userId) s in
  let s2 := exec (PostModel.like postId userId) s1 in
  (∃ (liked0 : bool) r1 r2,
     eval (PostModel.isLikedBy postId userId) s = inr liked0
     ∧ eval (PostModel.like postId userId) s = inr r1
     ∧ PostModel.liked r1 = negb liked0
     ∧ eval (PostModel.like postId userId) s1 = inr r2
     ∧ PostModel.liked r2 = liked0)
  ∧ rows (posts s2) = rows (posts s)
  ∧ eval (Db.findByPk postId) s2 = inr (Some post)
  ∧ like_pair <$> rows (likes s2) ≡ₚ like_pair <$> rows (likes s)
  ∧ (∀ p u, eval (PostModel.isLikedBy p u) s2 = eval (PostModel.isLikedBy p u) s)
  ∧ users s2 = users s ∧ comments s2 = comments s ∧ follows s2 = follows s.
Proof.
  intros Hpk Huniq Hpost s1 s2.
  unfold eval, Db.findByPk in Hpost. simpl in Hpost. injection Hpost as Hpost.
  assert (Hfacts :
    (∃ (liked0 : bool) r1 r2,
       eval (PostModel.isLikedBy postId userId) s = inr liked0
       ∧ eval (PostModel.like postId userId) s = inr r1
       ∧ PostModel.liked r1 = negb liked0
       ∧ eval (PostModel.like postId userId) s1 = inr r2
       ∧ PostModel.liked r2 = liked0)
    ∧ rows (posts s2) = rows (posts s)
    ∧ like_pair <$> rows (likes s2) ≡ₚ like_pair <$> rows (likes s)
    ∧ users s2 = users s ∧ comments s2 = comments s ∧ follows s2 = follows s).
  { subst s2 s1. unfold eval, exec. rewrite isLikedBy_pairs. rewrite (like_step _ _ s), Hpost.
    destruct (head (filter _ (rows (likes s)))) as [l|] eqn:Hl.
    - (* liked: the row is deleted, then inserted again *)
      apply head_filter_Some in Hl as Hl'. destruct Hl' as [Hin [Hu Hp]].
      rewrite like_step. cbn -[bump after_await].
      rewrite (bump_head Post.likes_count_c (-1)), Hpost. cbn -[bump after_await].
      rewrite (filter_nil_intro (λ l0, Like.user_id l0 = userId ∧ Like.post_id l0 = postId)
                 (filter (λ l0, Like.id l0 ≠ Like.id l) (rows (likes s)))).
      2:{ intros r Hr [Hru Hrp]. apply list_elem_of_filter in Hr as [Hne Hr].
          apply Hne. f_equal. apply (NoDup_fmap_eq like_pair (rows (likes s))); try done.
          unfold like_pair. congruence. }
      cbn -[bump after_await]. split; [|split; [|split; [|done]]].
      + exists true. do 2 eexists. split; [|split; [reflexivity|done]].
        do 2 f_equal. apply bool_decide_eq_true. apply list_elem_of_fmap.
        exists l. split; [|done]. unfold like_pair. by rewrite Hu, Hp.
      + exact (bump_bump_cancel Post.likes_count_c (-1) postId (rows (posts s))).
      + destruct Hpk as [Hnd _]. rewrite (delete_by_pk (rows (likes s)) l Hnd Hin) at 2.
        rewrite fmap_app, fmap_cons. simpl. rewrite <- Permutation_cons_append.
        unfold like_pair at 1. simpl. unfold like_pair at 2. by rewrite Hu, Hp.
    - (* not liked: the row is inserted, then deleted again *)
      apply head_filter_nil in Hl as Hnil.
      rewrite like_step. cbn -[bump after_await].
      rewrite (bump_head Post.likes_count_c 1), Hpost. cbn -[bump after_await].
      rewrite filter_app, Hnil. rewrite filter_cons_True by done. cbn -[bump after_await].
      split; [|split; [|split; [|done]]].
      + exists false. do 2 eexists. split; [|split; [reflexivity|done]].
        do 2 f_equal. apply bool_decide_eq_false. intros Hin.
        apply list_elem_of_fmap in Hin as (l & E & Hin). unfold like_pair in E.
        eapply head_filter_None in Hl; [|exact Hin]. apply Hl. by simplify_eq.
      + exact (bump_bump_cancel Post.likes_count_c 1 postId (rows (posts s))).
      + rewrite filter_app. rewrite filter_cons_False by (simpl; tauto).
        rewrite filter_nil, app_nil_r.
        pose proof (filter_other_ids (rows (likes s)) (serial (likes s))
                      (fresh_serial (likes s) Hpk)) as Hsame.
        simpl in Hsame. by rewrite Hsame. }
  destruct Hfacts as (Hres & Hposts & Hperm & Hrest).
  split; [done|]. split; [done|].
  split; [unfold eval, Db.findByPk; simpl; by rewrite Hposts, Hpost|].
  split; [done|]. split; [|done].
  intros p u. unfold eval. rewrite !isLikedBy_pairs. simpl. f_equal.
  apply bool_decide_ext. by rewrite Hperm.
Qed.

Lemma demo_likes_unique : likes_unique demo_store.
Proof. unfold likes_unique. apply (bool_decide_unpack _). vm_compute. reflexivity. Defined.

Lemma like_twice_restores_witness :
  primary_key (likes demo_store) ∧ likes_unique demo_store
  ∧ eval (Db.findByPk 2) demo_store
    = inr (Some (Post.mk 2 1 "second" 1 0 0 None false None 20))
  ∧ rows (posts (exec (PostModel.like (dialect := postgres_dialect) 2 2)
                   (exec (PostModel.like (dialect := postgres_dialect) 2 2) demo_store)))
    = rows (posts demo_store).
Proof.
  split; [exact demo_likes_key|]. split; [exact demo_likes_unique|].
  split; [reflexivity|].
  exact (proj1 (proj2 (like_twice_restores (dialect := postgres_dialect) 2 2 demo_store
                         (Post.mk 2 1 "second" 1 0 0 None false None 20)
                         demo_likes_key demo_likes_unique eq_refl))).
Defined.

(** ** The content graph: retweets *)

Lemma bump_fresh c d postId (l : list Post.attrs) (p : Post.attrs) :
  Post.id p ≠ postId → bump c d postId (l ++ [p]) = bump c d postId l ++ [p].
Proof.
  intros Hne. unfold bump. rewrite fmap_app. simpl. by rewrite decide_False.
Qed.


Lemma demo_posts_key : primary_key (posts demo_store).
Proof.
  split; simpl.
  - apply (bool_decide_unpack _). vm_compute. reflexivity.
  - repeat constructor.
Defined.


(** ** The follow graph *)

Lemma isFollowing_edge (a b : Z) (s : Store) :
  UserModel.isFollowing a b s
  = (inr (bool_decide (Exists (edge a b) (rows (follows s)))), s).
Proof.
  unfold UserModel.isFollowing, Db.findOne, mbind, async_bind, mret, async_ret. simpl.
  do 2 f_equal. apply bool_decide_ext. rewrite Exists_exists.
  destruct (head (filter _ (rows (follows s)))) as [f|] eqn:Hf.
  - apply head_filter_Some in Hf as [Hin He]. split; [intros _|by eauto]. by exists f.
  - split; [by intros [? ?]|]. intros (f & Hin & He). exfalso.
    eapply head_filter_None in Hf; [|exact Hin]. by apply Hf.
Qed.

Lemma filter_not_all {A : Type} (P : A → Prop) `{∀ x, Decision (P x)} (l : list A) :
  filter P l = [] → filter (λ x, ¬ P x) l = l.
Proof.
  induction l as [|a l IH]; [done|]. destruct (decide (P a)).
  - by rewrite filter_cons_True.
  - rewrite filter_cons_False by done. intros Hl.
    rewrite filter_cons_True by done. by rewrite IH.
Qed.

Lemma filter_filter_not {A : Type} (P : A → Prop) `{∀ x, Decision (P x)} (l : list A) :
  filter P (filter (λ x, ¬ P x) l) = [].
Proof.
  apply filter_nil_intro. intros x Hx. by apply list_elem_of_filter in Hx as [? _].
Qed.

Lemma follows_eta (s : Store) :
  mkStore (users s) (posts s) (comments s)
    (mkTable (rows (follows s)) (serial (follows s))) (likes s) (clock s) = s.
Proof. by destruct s as [? ? ? [? ?] ? ?]. Qed.

Lemma follow_step (a b : Z) (s : Store) :
  UserModel.follow a b s =
  if decide (a = b) then (inl (Error "Cannot follow yourself"), s)
  else match head (filter (edge a b) (rows (follows s))) with
       | Some _ => (inl (Error "Already following this user"), s)
       | None =>
           (inr (UserModel.mkAck true "Successfully followed user"),
            mkStore (users s) (posts s) (comments s)
              (mkTable (rows (follows s) ++ [Follow.mk (serial (follows s)) a b])
                       (serial (follows s) + 1))
              (likes s) (clock s))
       end.
Proof.
  unfold UserModel.follow. case_decide; [done|].
  unfold Db.findOrCreate, Db.findOne, Db.create, mbind, async_bind, mret, async_ret. simpl.
  change (filter (λ f, Follow.follower_id f = a ∧ Follow.following_id f = b)
            (rows (follows s))) with (filter (edge a b) (rows (follows s))).
  by destruct (head (filter (edge a b) (rows (follows s)))).
Qed.

Lemma unfollow_step (a b : Z) (s : Store) :
  UserModel.unfollow a b s =
  match filter (edge a b) (rows (follows s)) with
  | [] => (inl (Error "Not following this user"), s)
  | _ :: _ =>
      (inr (UserModel.mkAck true "Successfully unfollowed user"),
       mkStore (users s) (posts s) (comments s)
         (mkTable (filter (λ f, ¬ edge a b f) (rows (follows s))) (serial (follows s)))
         (likes s) (clock s))
  end.
Proof.
  unfold UserModel.unfollow, Db.destroy_where, mbind, async_bind, mret, async_ret. simpl.
  change (filter (λ f, Follow.follower_id f = a ∧ Follow.following_id f = b)
            (rows (follows s))) with (filter (edge a b) (rows (follows s))).
  destruct (filter (edge a b) (rows (follows s))) as [|f l] eqn:Hf.
  - simpl. unfold throw. f_equal. etrans; [|apply follows_eta]. do 2 f_equal.
    by apply filter_not_all.
  - by rewrite decide_False by (simpl; lia).
Qed.



(** ** The content graph: comments *)

Lemma addComment_comments {dialect : Dialect} (userId postId : Z) (content : string)
    (s : Store) :
  rows (comments (exec (PostModel.addComment userId postId content) s)) = rows (comments s)
  ∨ rows (comments (exec (PostModel.addComment userId postId content) s))
    = rows (comments s)
      ++ [Comment.mk (serial (comments s)) userId postId content None (clock s)].
Proof.
  unfold exec, PostModel.addComment, Db.findByPk, Db.create, Db.increment,
    now, read, mbind, async_bind. cbn -[Db.arithmetic bump].
  destruct (head (filter _ (rows (posts s)))) as [post|]; [|by left].
  rewrite arithmetic_run. cbn -[bump].
  destruct (head (filter _ (rows (comments s) ++ _))); by right.
Qed.

Lemma perform_comments {dialect : Dialect} (c : call) (s : Store) :
  (∀ userId postId content, c ≠ CallAddComment userId postId content) →
  comments (perform c s) = comments s.
Proof.
  intros Hc. destruct c as [u t|u o t|u p t|p u|a b|a b]; simpl; unfold exec.
  - done.
  - unfold PostModel.retweet, PostModel.findById, Db.findByPk, Db.create, Db.increment,
      now, read, mbind, async_bind. cbn -[Db.arithmetic bump].
    destruct (head (filter _ (rows (posts s)))); [|done].
    by rewrite arithmetic_run.
  - by destruct (Hc u p t).
  - rewrite like_step. destruct (head (filter _ (rows (posts s)))); [|done].
    by destruct (head (filter _ (rows (likes s)))).
  - rewrite follow_step. case_decide; [done|].
    by destruct (head (filter _ (rows (follows s)))).
  - rewrite unfollow_step. by destruct (filter _ (rows (follows s))).
Qed.

Lemma perform_top_level {dialect : Dialect} (c : call) (s : Store) :
  all_top_level s → all_top_level (perform c s).
Proof.
  unfold all_top_level. intros Hs.
  destruct c as [u t|u o t|u p t|p u|a b|a b];
    try (rewrite perform_comments; [done|intros; discriminate]).
  simpl. destruct (addComment_comments u p t s) as [-> | ->]; [done|].
  apply Forall_app. split; [done|]. by apply Forall_singleton.
Qed.

Lemma perform_all_top_level {dialect : Dialect} (calls : list call) (s : Store) :
  all_top_level s → all_top_level (perform_all calls s).
Proof.
  revert s. induction calls as [|c calls IH]; intros s Hs; [done|].
  simpl. apply IH. by apply perform_top_level.
Qed.

(** C10. Every comment is top-level.  [addComment] always stores a null
    [parent_comment_id]; hence from a store without replies (the empty
    database in particular), after any sequence of calls of the write
    interface ([addComment] and the other writes alike) every comment row
    has a null parent, the comment that a further [addComment] returns has
    a null parent, and every comment listed by [getComments] carries an
    empty [replies] list. *)
Theorem comments_stay_top_level {dialect : Dialect} (calls : list call) (s : Store) :
  all_top_level s →
  let s' := perform_all calls s in
  all_top_level s'
  ∧ (∀ userId postId content c,
       eval (PostModel.addComment userId postId content) s' = inr c →
       Comment.parent_comment_id (PostModel.comment_row c) = None)
  ∧ (∀ postId limit offset,
       ∃ cs, PostModel.getComments postId limit offset s' = (inr cs, s')
             ∧ Forall (λ c, PostModel.replies c = []) cs).
Proof.
  intros Hs s'. pose proof (perform_all_top_level calls s Hs) as Hs'. fold s' in Hs'.
  split; [done|]. split.
  - intros userId postId content c Hc.
    pose proof (perform_top_level (CallAddComment userId postId content) s' Hs') as Ha.
    unfold all_top_level in Ha. rewrite Forall_forall in Ha. apply Ha. clear Ha.
    revert Hc. simpl. unfold eval, exec, PostModel.addComment, Db.findByPk, Db.create,
      Db.increment, now, read, mbind, async_bind. cbn -[Db.arithmetic bump].
    destruct (head (filter _ (rows (posts s')))) as [post|]; [|done].
    rewrite arithmetic_run. cbn -[bump].
    destruct (head (filter _ (rows (comments s') ++ _))) as [r|] eqn:Hr; [|done].
    simpl. intros [= <-]. simpl. by apply head_filter_Some in Hr as [Hin _].
  - intros postId limit offset. eexists. split; [reflexivity|].
    apply Forall_fmap, Forall_forall. intros c _. simpl.
    rewrite filter_nil_intro; [done|]. intros r Hr E.
    unfold all_top_level in Hs'. rewrite Forall_forall in Hs'.
    by rewrite (Hs' r Hr) in E.
Qed.

Lemma empty_store_top_level : all_top_level empty_store.
Proof. apply Forall_nil_2. Qed.

Lemma comments_stay_top_level_witness :
  all_top_level demo_store
  ∧ all_top_level
      (perform_all (dialect := postgres_dialect)
         [CallAddComment 2 1 "nice"; CallLike 1 2; CallAddComment 1 1 "thanks"]
         demo_store).
Proof.
  assert (H0 : all_top_level demo_store) by apply Forall_nil_2.
  split; [exact H0|].
  exact (proj1 (comments_stay_top_level (dialect := postgres_dialect)
                  [CallAddComment 2 1 "nice"; CallLike 1 2; CallAddComment 1 1 "thanks"]
                  demo_store H0)).
Defined.

(** ** The feed composer: timeline *)

Lemma elem_of_page {A : Type} (limit offset : nat) (l : list A) (x : A) :
  x ∈ page limit offset l → x ∈ l.
Proof.
  unfold page. intros Hx. apply (subseteq_drop offset l). by apply (subseteq_take limit).
Qed.

Lemma flatten_all_authors (js : list PostModel.PostJSON) :
  Forall (λ j, is_Some (PostModel.author j)) js →
  ∃ ds, PostModel.flatten_all js = inr ds ∧ PostModel.json <$> ds = js.
Proof.
  induction 1 as [|j js [a Ha] _ (ds & Hds & Hjs)]; [by exists []|].
  simpl. unfold PostModel.flatten. rewrite Ha, Hds. eexists. split; [reflexivity|].
  rewrite fmap_cons. by f_equal.
Qed.

Lemma include_author_Some attributes (userId : Z) (s : Store) :
  Exists (λ u, User.id u = userId) (rows (users s)) →
  is_Some (include_author attributes userId s).
Proof.
  intros He. apply Exists_exists in He as (u & Hin & Hu). unfold include_author.
  destruct (head (filter _ (rows (users s)))) as [v|] eqn:Hv; [by eexists|].
  exfalso. eapply head_filter_None in Hv; [|exact Hin]. by apply Hv.
Qed.

(** The [Op.in] test of [getTimeline] is membership in the timeline. *)
Lemma followingIds_timeline (u : Z) (s : Store) (p : Post.attrs) :
  Post.user_id p
    ∈ (Follow.following_id <$> filter (λ f, Follow.follower_id f = u) (rows (follows s)))
      ++ [u]
  ↔ in_timeline u s p.
Proof.
  unfold in_timeline. rewrite elem_of_app, list_elem_of_singleton, list_elem_of_fmap,
    Exists_exists. split.
  - intros [(f & E & Hf)|E]; [right|by left].
    apply list_elem_of_filter in Hf as [Hu Hin]. exists f. by split.
  - intros [E|(f & Hin & Hu & Hp)]; [by right|left].
    exists f. split; [done|]. by apply list_elem_of_filter.
Qed.

(** C6, as the code has it.  [getTimeline] returns the page
    [offset, offset + limit) of the feed, and the feed is exactly the posts
    whose author is the user or someone the user follows, newest first.
    Hence every returned post is one of these, a page that covers the feed
    returns all of them, and for a user who follows nobody the feed is
    exactly the user's own posts. *)
Theorem getTimeline_page (u : Z) (limit offset : nat) (s : Store) :
  authors_exist s →
  ∃ feed data,
    feed ≡ₚ filter (in_timeline u s) (rows (posts s))
    ∧ StronglySorted (newest_first Post.created_at) feed
    ∧ PostModel.getTimeline u limit offset s = (inr data, s)
    ∧ feed_rows data = take limit (drop offset feed)
    ∧ (offset = 0%nat → (length feed ≤ limit)%nat → feed_rows data = feed)
    ∧ (Forall (λ f, Follow.follower_id f ≠ u) (rows (follows s)) →
       feed ≡ₚ filter (λ p, Post.user_id p = u) (rows (posts s))).
Proof.
  intros Hfk.
  set (feed := order_desc Post.created_at (filter (in_timeline u s) (rows (posts s)))).
  assert (Hperm : feed ≡ₚ filter (in_timeline u s) (rows (posts s)))
    by apply merge_sort_Permutation.
  destruct (flatten_all_authors (PostModel.with_includes s <$> page limit offset feed))
    as (data & Hdata & Hjson).
  { apply Forall_fmap, Forall_forall. intros p Hp. simpl.
    apply include_author_Some. unfold authors_exist in Hfk.
    rewrite Forall_forall in Hfk. apply Hfk. apply elem_of_page in Hp.
    rewrite Hperm in Hp. by apply list_elem_of_filter in Hp as [_ ?]. }
  assert (Hrows : feed_rows data = take limit (drop offset feed)).
  { unfold feed_rows. rewrite (list_fmap_compose PostModel.json PostModel.row), Hjson.
    rewrite <- list_fmap_compose. apply list_fmap_id. }
  exists feed, data. split; [done|]. split; [apply StronglySorted_merge_sort; apply _|].
  split; [|split; [done|split]].
  - unfold PostModel.getTimeline, Db.findAll, read, settle, mbind, async_bind. simpl.
    rewrite (list_filter_iff _ (in_timeline u s)) by apply followingIds_timeline.
    fold feed. by rewrite Hdata.
  - intros -> Hlen. rewrite Hrows, drop_0. by apply take_ge.
  - intros Hnone. rewrite Hperm. erewrite list_filter_iff; [done|].
    intros p. unfold in_timeline. split; [|by left].
    intros [E|He]; [done|]. exfalso. apply Exists_exists in He as (f & Hin & Hu & _).
    rewrite Forall_forall in Hnone. by apply (Hnone f Hin).
Qed.

Lemma demo_authors : authors_exist demo_store.
Proof. unfold authors_exist. apply (bool_decide_unpack _). vm_compute. reflexivity. Defined.

Lemma getTimeline_page_witness :
  authors_exist demo_store
  ∧ ∃ feed data,
      feed ≡ₚ filter (in_timeline 1 demo_store) (rows (posts demo_store))
      ∧ PostModel.getTimeline 1 1 0 demo_store = (inr data, demo_store)
      ∧ feed_rows data = take 1 (drop 0 feed).
Proof.
  split; [exact demo_authors|].
  destruct (getTimeline_page 1 1 0 demo_store demo_authors)
    as (feed & data & Hperm & _ & Hrun & Hrows & _).
  by exists feed, data.
Defined.

(** C6, as worded, fails: ann (user 1) has written two posts and follows
    nobody; [getTimeline 1] with [limit = 1] returns one post, not both. *)
Lemma timeline_page_is_not_whole : ¬ returns_whole_timeline 1 1 0 demo_store.
Proof.
  intros (data & Hrun & Hperm & _).
  vm_compute in Hrun. injection Hrun as <-.
  apply Permutation_length in Hperm. vm_compute in Hperm. discriminate.
Qed.

(** ** The feed composer: search *)

(** The first half of the sanitisation holds for every query: no character
    of the special class survives, apart from the ampersands that the
    second [replace] writes. *)
Lemma replace_spaces_chars (in_run : bool) (l : list ascii) (c : ascii) :
  c ∈ replace_spaces in_run l → c ∈ l ∨ c = " "%char ∨ c = "&"%char.
Proof.
  revert in_run. induction l as [|a l IH]; intros in_run; simpl.
  - intros Hc. by apply elem_of_nil in Hc.
  - destruct (is_space a).
    + destruct in_run; intros Hc.
      * destruct (IH _ Hc) as [Hx|Hx]; [left; by right|by right].
      * apply elem_of_cons in Hc as [->|Hc]; [right; by left|].
        apply elem_of_cons in Hc as [->|Hc]; [right; by right|].
        apply elem_of_cons in Hc as [->|Hc]; [right; by left|].
        destruct (IH _ Hc) as [Hx|Hx]; [left; by right|by right].
    + intros Hc. apply elem_of_cons in Hc as [->|Hc]; [left; by left|].
      destruct (IH _ Hc) as [Hx|Hx]; [left; by right|by right].
Qed.

Lemma sanitizedQuery_strips (query : string) (c : ascii) :
  c ∈ String.list_ascii_of_string (sanitizedQuery query) →
  is_special c = true → c = "&"%char.
Proof.
  unfold sanitizedQuery. rewrite String.list_ascii_of_string_of_list_ascii.
  intros Hc Hs. apply replace_spaces_chars in Hc as [Hc | [-> | ->]]; [|done..].
  exfalso. unfold replace_special in Hc. apply list_elem_of_fmap in Hc as (a & -> & _).
  destruct (is_special a) eqn:Ha; [done|]. by rewrite Ha in Hs.
Qed.

(** C7 fails on the code.  [search] trims the query before it replaces
    the special characters, so a special character at the end of the query
    becomes a trailing space and then a trailing ampersand with no operand:
    for [hello:] the text sent to [to_tsquery] is [hello & :*], a syntax
    error, where the sanitised tokens would give [hello:*]; a query made of
    [&] alone sends [ & :*].  A special character inside the query is
    handled as described. *)
Theorem search_trailing_special_errors `{FullText} (limit offset : nat) (s : Store) :
  sanitizedQuery "hello:" = "hello & "
  ∧ to_tsquery "hello & :*" = None
  ∧ PostModel.search "hello:" limit offset s
    = (inl (Error "syntax error in tsquery: hello & :*"), s)
  ∧ PostModel.search "&" limit offset s
    = (inl (Error "syntax error in tsquery:  & :*"), s)
  ∧ to_tsquery "hello:*"
    = Some [mkOperand (String.list_ascii_of_string "hello") true]
  ∧ to_tsquery (sanitizedQuery "big: (cats|dogs)  now" +:+ ":*")
    = Some [mkOperand (String.list_ascii_of_string "big") false;
            mkOperand (String.list_ascii_of_string "cats") false;
            mkOperand (String.list_ascii_of_string "dogs") false;
            mkOperand (String.list_ascii_of_string "now") true].
Proof.
  repeat split; try (vm_compute; reflexivity).
Qed.

(** ** The identity store *)

Lemma toJSON_hides (user o : gmap string JsVal) :
  UserModel.toJSON (Some user) = Some o → hides_hash o.
Proof. intros [= <-]. apply lookup_delete_eq. Qed.

Lemma findById_hides (id : Z) (includeStats : bool) (s : Store) (o : gmap string JsVal) :
  eval (UserModel.findById id includeStats) s = inr (Some o) → hides_hash o.
Proof.
  unfold eval, UserModel.findById, Db.findByPk, Db.count, mbind, async_bind, mret,
    async_ret. simpl.
  destruct (head (filter _ (rows (users s)))) as [u|]; [|done].
  destruct includeStats; simpl; intros [= <-]; unfold hides_hash.
  - rewrite !lookup_insert_ne by done. apply lookup_delete_eq.
  - apply lookup_delete_eq.
Qed.

Lemma toJSON_all_hide (l : list (gmap string JsVal)) (o : gmap string JsVal) :
  Some o ∈ (λ f, UserModel.toJSON (Some f)) <$> l → hides_hash o.
Proof.
  intros Hin. apply list_elem_of_fmap in Hin as (f & E & _).
  symmetry in E. by apply toJSON_hides in E.
Qed.

(** C8. No outward-facing user object carries the credential hash.
    Whatever the store holds, an object returned by [create],
    [findByUsername], [findById], [findByWallet] or [updateProfile], and
    every object in the lists returned by [getFollowers], [getFollowing]
    and [search], has no [password_hash] property. *)
Theorem password_hash_never_exposed `{Bcrypt} `{ILike} (s : Store)
    (o : gmap string JsVal) :
  (∀ username email password wallet_address,
     eval (UserModel.create username email password wallet_address) s = inr (Some o) →
     hides_hash o)
  ∧ (∀ username, eval (UserModel.findByUsername username) s = inr (Some o) → hides_hash o)
  ∧ (∀ id includeStats,
       eval (UserModel.findById id includeStats) s = inr (Some o) → hides_hash o)
  ∧ (∀ wallet_address,
       eval (UserModel.findByWallet wallet_address) s = inr (Some o) → hides_hash o)
  ∧ (∀ userId updates,
       eval (UserModel.updateProfile userId updates) s = inr (Some o) → hides_hash o)
  ∧ (∀ userId limit offset os,
       eval (UserModel.getFollowers userId limit offset) s = inr os →
       Some o ∈ os → hides_hash o)
  ∧ (∀ userId limit offset os,
       eval (UserModel.getFollowing userId limit offset) s = inr os →
       Some o ∈ os → hides_hash o)
  ∧ (∀ query limit offset os,
       eval (UserModel.search query limit offset) s = inr os →
       Some o ∈ os → hides_hash o).
Proof.
  repeat split.
  - intros username email password wallet_address.
    unfold eval, UserModel.create, UserModel.User_create, Db.create, now, read, mbind,
      async_bind, mret, async_ret. simpl.
    case_decide; [done|]. simpl. intros [= <-]. apply lookup_delete_eq.
  - intros username.
    unfold eval, UserModel.findByUsername, Db.findOne, mbind, async_bind, mret, async_ret.
    simpl. destruct (head (filter _ (rows (users s)))); [|done].
    intros [= <-]. apply lookup_delete_eq.
  - intros id includeStats. apply findById_hides.
  - intros wallet_address.
    unfold eval, UserModel.findByWallet, Db.findOne, mbind, async_bind, mret, async_ret.
    simpl. destruct (head (filter _ (rows (users s)))); [|done].
    intros [= <-]. apply lookup_delete_eq.
  - intros userId updates. unfold UserModel.updateProfile, eval, mbind, async_bind.
    unfold UserModel.User_update at 1. apply findById_hides.
  - intros userId limit offset os.
    unfold eval, UserModel.getFollowers, Db.findByPk, read, mbind, async_bind, mret,
      async_ret. simpl.
    destruct (head (filter _ (rows (users s)))).
    + intros [= <-]. apply toJSON_all_hide.
    + intros [= <-] Hin. by apply elem_of_nil in Hin.
  - intros userId limit offset os.
    unfold eval, UserModel.getFollowing, Db.findByPk, read, mbind, async_bind, mret,
      async_ret. simpl.
    destruct (head (filter _ (rows (users s)))).
    + intros [= <-]. apply toJSON_all_hide.
    + intros [= <-] Hin. by apply elem_of_nil in Hin.
  - intros query limit offset os.
    unfold eval, UserModel.search, read, mbind, async_bind, mret, async_ret. simpl.
    intros [= <-] Hin. apply list_elem_of_fmap in Hin as (u & E & _).
    symmetry in E. by apply toJSON_hides in E.
Qed.

Lemma password_hash_never_exposed_witness :
  User.password_hash ann = Some "$2a$10$hash"
  ∧ eval (UserModel.findByUsername "ann") demo_store
    = inr (Some (delete "password_hash" (dataValues ann)))
  ∧ hides_hash (delete "password_hash" (dataValues ann)).
Proof.
  split; [reflexivity|]. split; [reflexivity|].
  apply (proj1 (proj2 (@password_hash_never_exposed demo_bcrypt demo_ilike demo_store _))
           "ann").
  reflexivity.
Defined.

(** ** The login route *)

Lemma findByUsername_hides (username : string) (s : Store) :
  ∃ r, UserModel.findByUsername username s = (inr r, s)
       ∧ ∀ user, r = Some user → user !! "password_hash" = None.
Proof.
  unfold UserModel.findByUsername, Db.findOne, mbind, async_bind, mret, async_ret. simpl.
  eexists. split; [reflexivity|]. intros user.
  destruct (head (filter _ (rows (users s)))); [|done].
  intros [= <-]. apply lookup_delete_eq.
Qed.

(** C9. The success branch of the password login is unreachable.  For
    every request and every store the route answers with status 400, sets
    no cookie and leaves the store unchanged; the answer is the same
    whatever [bcrypt.compare] would say, since the comparison is never
    reached.  When a user name and a password are supplied the answer is
    [Invalid credentials], also for a user that [create] has just stored
    with that very password: [findByUsername] hands the route an object
    without [password_hash]. *)
Theorem login_never_succeeds `{Bcrypt} `{Jwt} (username password : option string)
    (s : Store) :
  (∃ r, AuthRoutes.login username password s = (inr r, s)
        ∧ AuthRoutes.status r = 400 ∧ AuthRoutes.cookie r = None)
  ∧ (∀ other : Bcrypt,
       @AuthRoutes.login other _ username password s
       = AuthRoutes.login username password s)
  ∧ (∀ u p, username = Some u → password = Some p → u ≠ "" → p ≠ "" →
       AuthRoutes.login username password s
       = (inr (AuthRoutes.mkResponse 400 None (AuthRoutes.ErrorBody "Invalid credentials")),
          s))
  ∧ (∀ u p email wallet_address created s',
       username = Some u → password = Some p → u ≠ "" → p ≠ "" →
       UserModel.create u email (Some p) wallet_address s = (inr created, s') →
       AuthRoutes.login username password s'
       = (inr (AuthRoutes.mkResponse 400 None (AuthRoutes.ErrorBody "Invalid credentials")),
          s')).
Proof.
  assert (Hmain : ∀ (B : Bcrypt) u p s0, u ≠ "" → p ≠ "" →
    @AuthRoutes.login B _ (Some u) (Some p) s0
    = (inr (AuthRoutes.mkResponse 400 None (AuthRoutes.ErrorBody "Invalid credentials")),
       s0)).
  { intros B u p s0 Hu Hp. unfold AuthRoutes.login, AuthRoutes.try_catch.
    rewrite decide_False by tauto. unfold mbind, async_bind.
    destruct (findByUsername_hides u s0) as (r & -> & Hr).
    destruct r as [user|]; [|done]. by rewrite (Hr user eq_refl). }
  assert (Hreq : ∀ (B : Bcrypt), @AuthRoutes.login B _ username password s
    = (inr (AuthRoutes.mkResponse 400 None
              (AuthRoutes.ErrorBody
                 match username, password with
                 | Some u, Some p =>
                     if decide (u = "" ∨ p = "")
                     then "Username and password are required"
                     else "Invalid credentials"
                 | _, _ => "Username and password are required"
                 end)), s)).
  { intros B. destruct username as [u|], password as [p|]; try done.
    case_decide as E.
    - unfold AuthRoutes.login, AuthRoutes.try_catch. by rewrite decide_True.
    - apply Hmain; tauto. }
  split; [|split; [|split]].
  - rewrite Hreq. eexists. by split.
  - intros other. by rewrite !Hreq.
  - intros u p -> -> Hu Hp. by apply Hmain.
  - intros u p email wallet_address created s' -> -> Hu Hp _. by apply Hmain.
Qed.

Lemma login_never_succeeds_witness :
  ∃ s',
    UserModel.create (bcrypt := demo_bcrypt) "carol" None (Some "secret") None demo_store
    = (inr (Some (delete "password_hash"
                    (dataValues
                       (User.mk 3 "carol" None (Some "$2a$10$secret") None
                          (Some "Hey there! I'm carol")
                          (Some "https://ui-avatars.com/api/?name=carol&background=random")
                          (Some "") (Some "") (Some "") 40)))), s')
    ∧ AuthRoutes.login (bcrypt := demo_bcrypt) (jwt := demo_jwt)
        (Some "carol") (Some "secret") s'
      = (inr (AuthRoutes.mkResponse 400 None (AuthRoutes.ErrorBody "Invalid credentials")),
         s').
Proof.
  eexists. split; [reflexivity|].
  eapply (proj2 (proj2 (proj2 (@login_never_succeeds demo_bcrypt demo_jwt
                                 (Some "carol") (Some "secret") demo_store)))
            "carol" "secret" None None);
    [reflexivity|reflexivity|done|done|reflexivity].
Defined.

(** * Further properties of the models *)

(** ** The counters under every write *)

Lemma occurrences_fmap {A : Type} (f : A → Z) (i : Z) (l : list A) :
  occurrences i (f <$> l) = Z.of_nat (length (filter (λ x, f x = i) l)).
Proof.
  unfold occurrences. f_equal. induction l as [|a l IH]; [done|].
  rewrite fmap_cons. destruct (decide (f a = i)).
  - rewrite !filter_cons_True by done. simpl. by rewrite IH.
  - by rewrite !filter_cons_False by done.
Qed.

Lemma occurrences_omap {A : Type} (f : A → option Z) (i : Z) (l : list A) :
  occurrences i (omap f l) = Z.of_nat (length (filter (λ x, f x = Some i) l)).
Proof.
  unfold occurrences. f_equal. induction l as [|a l IH]; [done|]. simpl.
  change (list_omap A Z f l) with (omap f l).
  destruct (f a) as [j|] eqn:E.
  - destruct (decide (j = i)) as [->|Hne].
    + rewrite !filter_cons_True by done. simpl. by rewrite IH.
    + rewrite !filter_cons_False by congruence. done.
  - by rewrite filter_cons_False by congruence.
Qed.

Lemma occurrences_snoc (i j : Z) (l : list Z) :
  occurrences i (l ++ [j]) = occurrences i l + (if decide (j = i) then 1 else 0).
Proof.
  unfold occurrences. rewrite filter_app, length_app. case_decide.
  - rewrite filter_cons_True by done. simpl. lia.
  - rewrite filter_cons_False by done. simpl. lia.
Qed.

Lemma occurrences_cons (i j : Z) (l : list Z) :
  occurrences i (j :: l) = occurrences i l + (if decide (j = i) then 1 else 0).
Proof.
  unfold occurrences. case_decide.
  - rewrite filter_cons_True by done. simpl. lia.
  - rewrite filter_cons_False by done. simpl. lia.
Qed.

Lemma occurrences_perm (i : Z) (l l' : list Z) :
  l ≡ₚ l' → occurrences i l = occurrences i l'.
Proof. intros Hp. unfold occurrences. by rewrite Hp. Qed.

Lemma occurrences_fresh (i n : Z) (l : list Z) :
  Forall (λ j, j < n) l → n ≤ i → occurrences i l = 0.
Proof.
  intros Hl Hi. unfold occurrences. rewrite filter_nil_intro; [done|].
  intros j Hj ->. rewrite Forall_forall in Hl. specialize (Hl _ Hj). simpl in Hl. lia.
Qed.

Lemma counter_of_add c c' d p :
  counter_of c' (Post.add c d p) = counter_of c' p + (if decide (c = c') then d else 0).
Proof. destruct c, c'; simpl; unfold Post.add; simpl; lia. Qed.

Lemma original_add c d p :
  Post.original_post_id (Post.add c d p) = Post.original_post_id p.
Proof. by destruct c. Qed.

Lemma bump_originals c d i (l : list Post.attrs) :
  omap Post.original_post_id (bump c d i l) = omap Post.original_post_id l.
Proof.
  induction l as [|p l IH]; [done|]. unfold bump in *. rewrite fmap_cons. simpl.
  change (list_omap Post.attrs Z Post.original_post_id) with
    (omap (M := list) Post.original_post_id) in *.
  rewrite IH. by destruct (decide (Post.id p = i)); [rewrite original_add|].
Qed.

(** A counter that moves with its row. *)
Lemma counted_rows_insert c i (l : list Post.attrs) (refs : list Z) :
  counted_rows c l refs → counted_rows c (bump c 1 i l) (refs ++ [i]).
Proof.
  intros Hc p' Hp'. apply elem_of_bump in Hp' as (p & Hp & ->).
  rewrite occurrences_snoc. specialize (Hc p Hp).
  destruct (decide (Post.id p = i)) as [E|E].
  - rewrite add_id, counter_of_add, decide_True by done.
    rewrite decide_True by done. lia.
  - rewrite decide_False by congruence. lia.
Qed.

Lemma counted_rows_remove c i (l : list Post.attrs) (refs refs' : list Z) :
  refs ≡ₚ i :: refs' → counted_rows c l refs → counted_rows c (bump c (-1) i l) refs'.
Proof.
  intros Hperm Hc p' Hp'. apply elem_of_bump in Hp' as (p & Hp & ->).
  specialize (Hc p Hp). rewrite (occurrences_perm _ _ _ Hperm), occurrences_cons in Hc.
  destruct (decide (Post.id p = i)) as [E|E].
  - rewrite add_id, counter_of_add, decide_True by done.
    rewrite decide_True in Hc by done. lia.
  - rewrite decide_False in Hc by congruence. lia.
Qed.

(** A counter that another counter's update leaves alone. *)
Lemma counted_rows_other c c' d i (l : list Post.attrs) (refs : list Z) :
  c ≠ c' → counted_rows c' l refs → counted_rows c' (bump c d i l) refs.
Proof.
  intros Hne Hc p' Hp'. apply elem_of_bump in Hp' as (p & Hp & ->).
  specialize (Hc p Hp). case_decide; [|done].
  rewrite add_id, counter_of_add, decide_False by done. lia.
Qed.

(** A new post, with its counters at zero and an id that nothing refers to. *)
Lemma counted_rows_new c (l : list Post.attrs) (refs : list Z) (new : Post.attrs) :
  counter_of c new = 0 → occurrences (Post.id new) refs = 0 →
  counted_rows c l refs → counted_rows c (l ++ [new]) refs.
Proof.
  intros H0 Hfresh Hc p Hp. apply elem_of_app in Hp as [Hp|Hp]; [by apply Hc|].
  apply list_elem_of_singleton in Hp as ->. by rewrite H0, Hfresh.
Qed.

Lemma counted_rows_more c (l : list Post.attrs) (refs : list Z) (j : Z) :
  (∀ p, p ∈ l → Post.id p ≠ j) → counted_rows c l refs → counted_rows c l (refs ++ [j]).
Proof.
  intros Hj Hc p Hp. rewrite occurrences_snoc, decide_False by (intros ->; by apply (Hj p)).
  rewrite (Hc p Hp). lia.
Qed.

Lemma primary_key_bump c d i (t : Table Post.attrs) :
  primary_key t → primary_key (mkTable (bump c d i (rows t)) (serial t)).
Proof.
  intros [Hnd Hlt]. split; simpl.
  - change (NoDup (Post.id <$> bump c d i (rows t))). by rewrite bump_id.
  - rewrite Forall_forall in Hlt |- *. intros p' Hp'.
    apply elem_of_bump in Hp' as (p & Hp & ->). specialize (Hlt p Hp). simpl in *.
    by case_decide; [rewrite add_id|].
Qed.

Lemma primary_key_lt (t : Table Post.attrs) (p : Post.attrs) :
  primary_key t → p ∈ rows t → Post.id p < serial t.
Proof. intros [_ Hlt] Hp. rewrite Forall_forall in Hlt. exact (Hlt p Hp). Qed.

(** The store that each write leaves. *)
Lemma create_exec (userId : Z) (content : string) (s : Store) :
  exec (PostModel.create userId content) s
  = mkStore (users s)
      (mkTable (rows (posts s)
                  ++ [Post.mk (serial (posts s)) userId content 0 0 0 None false None
                        (clock s)])
               (serial (posts s) + 1))
      (comments s) (follows s) (likes s) (clock s).
Proof. reflexivity. Qed.

Lemma retweet_exec {dialect : Dialect} (userId originalPostId : Z)
    (content : option string) (s : Store) :
  exec (PostModel.retweet userId originalPostId content) s
  = match head (filter (λ p, Post.id p = originalPostId) (rows (posts s))) with
    | None => s
    | Some _ =>
        mkStore (users s)
          (mkTable (bump Post.retweets_count_c 1 originalPostId
                      (rows (posts s)
                         ++ [Post.mk (serial (posts s)) userId (default "" content) 0 0 0
                               None true (Some originalPostId) (clock s)]))
                   (serial (posts s) + 1))
          (comments s) (follows s) (likes s) (clock s)
    end.
Proof.
  unfold exec, PostModel.retweet, PostModel.findById, Db.findByPk, Db.create,
    Db.increment, now, read, mbind, async_bind, mret, async_ret.
  cbn -[Db.arithmetic bump].
  destruct (head (filter _ (rows (posts s)))) as [original|] eqn:Ho; [|reflexivity].
  apply head_filter_Some in Ho as [_ Hid]. rewrite arithmetic_run. cbn -[bump].
  by rewrite Hid.
Qed.

Lemma addComment_exec {dialect : Dialect} (userId postId : Z) (content : string)
    (s : Store) :
  exec (PostModel.addComment userId postId content) s
  = match head (filter (λ p, Post.id p = postId) (rows (posts s))) with
    | None => s
    | Some _ =>
        mkStore (users s)
          (mkTable (bump Post.comments_count_c 1 postId (rows (posts s)))
                   (serial (posts s)))
          (mkTable (rows (comments s)
                      ++ [Comment.mk (serial (comments s)) userId postId content None
                            (clock s)])
                   (serial (comments s) + 1))
          (follows s) (likes s) (clock s)
    end.
Proof.
  unfold exec, PostModel.addComment, Db.findByPk, Db.create, Db.increment, now, read,
    mbind, async_bind, mret, async_ret.
  cbn -[Db.arithmetic bump].
  destruct (head (filter _ (rows (posts s)))) as [post|] eqn:Hp; [|reflexivity].
  apply head_filter_Some in Hp as [_ Hid]. rewrite arithmetic_run. cbn -[bump].
  rewrite Hid. by destruct (head (filter _ (rows (comments s) ++ _))).
Qed.

Lemma consistent_ext (s s' : Store) :
  posts s' = posts s → likes s' = likes s → comments s' = comments s →
  consistent s → consistent s'.
Proof.
  intros Hp Hl Hc (Hpk & Hlk & Hrefs & Hcnt).
  assert (Href : ∀ c, references c s' = references c s).
  { intros []; simpl; by rewrite ?Hp, ?Hl, ?Hc. }
  unfold consistent. rewrite Hp, Hl. split; [done|]. split; [done|]. split.
  - intros c. by rewrite Href.
  - intros c. by rewrite Href.
Qed.

Lemma Forall_lt_mono (n m : Z) (l : list Z) :
  n ≤ m → Forall (λ i, i < n) l → Forall (λ i, i < m) l.
Proof. intros Hnm Hl. eapply Forall_impl; [exact Hl|]. intros i Hi. simpl in *. lia. Qed.

(** Every write keeps the store consistent. *)
Lemma perform_consistent {dialect : Dialect} (c : call) (s : Store) :
  consistent s → consistent (perform c s).
Proof.
  intros Hs. pose proof Hs as (Hpk & Hlk & Hrefs & Hcnt).
  destruct c as [u t|u o t|u p t|p u|a b|a b]; simpl.
  - (* create *)
    rewrite create_exec. split; [|split; [done|split]]; simpl.
    + exact (primary_key_insert (posts s)
               (λ i, Post.mk i u t 0 0 0 None false None (clock s)) eq_refl Hpk).
    + intros c. apply (Forall_lt_mono (serial (posts s))); [lia|].
      destruct c; simpl; try (first [exact (Hrefs Post.likes_count_c)|exact (Hrefs Post.comments_count_c)]).
      rewrite omap_app. simpl. rewrite app_nil_r. apply (Hrefs Post.retweets_count_c).
    + intros c.
      assert (Hr : references c
        (mkStore (users s)
           (mkTable (rows (posts s)
                       ++ [Post.mk (serial (posts s)) u t 0 0 0 None false None (clock s)])
                    (serial (posts s) + 1))
           (comments s) (follows s) (likes s) (clock s)) = references c s).
      { destruct c; simpl; try done. rewrite omap_app. simpl. by rewrite app_nil_r. }
      rewrite Hr. apply counted_rows_new; [by destruct c| |apply Hcnt].
      simpl. apply (occurrences_fresh _ (serial (posts s))); [apply Hrefs|lia].
  - (* retweet *)
    rewrite retweet_exec.
    destruct (head (filter _ (rows (posts s)))) as [orig|] eqn:Ho; [|done].
    apply head_filter_Some in Ho as [Hin Hid].
    pose proof (primary_key_lt _ _ Hpk Hin) as Hlt. rewrite Hid in Hlt.
    rewrite bump_fresh by (simpl; lia).
    split; [|split; [done|split]]; simpl.
    + exact (primary_key_insert
               (mkTable (bump Post.retweets_count_c 1 o (rows (posts s))) (serial (posts s)))
               (λ i, Post.mk i u (default "" t) 0 0 0 None true (Some o) (clock s))
               eq_refl (primary_key_bump _ _ _ _ Hpk)).
    + intros c. apply (Forall_lt_mono (serial (posts s))); [lia|].
      destruct c; simpl; try (first [exact (Hrefs Post.likes_count_c)|exact (Hrefs Post.comments_count_c)]).
      rewrite omap_app, bump_originals. simpl. apply Forall_app. split.
      * apply (Hrefs Post.retweets_count_c).
      * by apply Forall_singleton.
    + intros c. destruct c; simpl.
      * apply counted_rows_new; [done| |].
        { simpl. apply (occurrences_fresh _ (serial (posts s)));
            [apply (Hrefs Post.likes_count_c)|lia]. }
        apply counted_rows_other; [done|]. apply (Hcnt Post.likes_count_c).
      * rewrite omap_app, bump_originals. simpl.
        apply counted_rows_new; [done| |].
        { simpl. apply (occurrences_fresh _ (serial (posts s))); [|lia].
          apply Forall_app. split; [apply (Hrefs Post.retweets_count_c)|].
          by apply Forall_singleton. }
        apply counted_rows_insert. apply (Hcnt Post.retweets_count_c).
      * apply counted_rows_new; [done| |].
        { simpl. apply (occurrences_fresh _ (serial (posts s)));
            [apply (Hrefs Post.comments_count_c)|lia]. }
        apply counted_rows_other; [done|]. apply (Hcnt Post.comments_count_c).
  - (* addComment *)
    rewrite addComment_exec.
    destruct (head (filter _ (rows (posts s)))) as [post|] eqn:Hp; [|done].
    apply head_filter_Some in Hp as [Hin Hid].
    pose proof (primary_key_lt _ _ Hpk Hin) as Hlt. rewrite Hid in Hlt.
    split; [|split; [done|split]]; simpl.
    + by apply primary_key_bump.
    + intros c. destruct c; simpl; try (first [exact (Hrefs Post.likes_count_c)|exact (Hrefs Post.comments_count_c)]).
      * rewrite bump_originals. apply (Hrefs Post.retweets_count_c).
      * rewrite fmap_app. apply Forall_app. split; [apply (Hrefs Post.comments_count_c)|].
        by apply Forall_singleton.
    + intros c. destruct c; simpl.
      * apply counted_rows_other; [done|]. apply (Hcnt Post.likes_count_c).
      * rewrite bump_originals. apply counted_rows_other; [done|].
        apply (Hcnt Post.retweets_count_c).
      * rewrite fmap_app. apply counted_rows_insert. apply (Hcnt Post.comments_count_c).
  - (* like *)
    unfold exec. rewrite like_step.
    destruct (head (filter _ (rows (posts s)))) as [post|] eqn:Hp; [|done].
    apply head_filter_Some in Hp as [Hin Hid].
    pose proof (primary_key_lt _ _ Hpk Hin) as Hlt. rewrite Hid in Hlt.
    destruct (head (filter _ (rows (likes s)))) as [l|] eqn:Hl; simpl.
    + apply head_filter_Some in Hl as [Hinl [_ Hlp]].
      pose proof (delete_by_pk (rows (likes s)) l (proj1 Hlk) Hinl) as Hperm.
      split; [|split; [|split]]; simpl.
      * by apply primary_key_bump.
      * exact (primary_key_delete (likes s) (Like.id l) Hlk).
      * intros c. destruct c; simpl; try (first [exact (Hrefs Post.likes_count_c)|exact (Hrefs Post.comments_count_c)]).
        -- pose proof (Hrefs Post.likes_count_c) as Hr. simpl in Hr.
           rewrite Forall_forall in Hr |- *. intros i Hi. apply Hr.
           apply list_elem_of_fmap in Hi as (r & -> & Hr').
           apply list_elem_of_filter in Hr' as [_ Hr']. by apply list_elem_of_fmap_2.
        -- rewrite bump_originals. apply (Hrefs Post.retweets_count_c).
      * intros c. destruct c; simpl.
        -- eapply counted_rows_remove; [|apply (Hcnt Post.likes_count_c)].
           simpl. rewrite Hperm at 1. by rewrite fmap_cons, Hlp.
        -- rewrite bump_originals. apply counted_rows_other; [done|].
           apply (Hcnt Post.retweets_count_c).
        -- apply counted_rows_other; [done|]. apply (Hcnt Post.comments_count_c).
    + split; [|split; [|split]]; simpl.
      * by apply primary_key_bump.
      * exact (primary_key_insert (likes s) (λ i, Like.mk i u p) eq_refl Hlk).
      * intros c. destruct c; simpl; try (first [exact (Hrefs Post.likes_count_c)|exact (Hrefs Post.comments_count_c)]).
        -- rewrite fmap_app. apply Forall_app. split; [apply (Hrefs Post.likes_count_c)|].
           by apply Forall_singleton.
        -- rewrite bump_originals. apply (Hrefs Post.retweets_count_c).
      * intros c. destruct c; simpl.
        -- rewrite fmap_app. apply counted_rows_insert. apply (Hcnt Post.likes_count_c).
        -- rewrite bump_originals. apply counted_rows_other; [done|].
           apply (Hcnt Post.retweets_count_c).
        -- apply counted_rows_other; [done|]. apply (Hcnt Post.comments_count_c).
  - (* follow *)
    unfold exec. rewrite follow_step. case_decide; [done|].
    destruct (head (filter _ (rows (follows s)))); [done|]. by apply (consistent_ext s).
  - (* unfollow *)
    unfold exec. rewrite unfollow_step.
    destruct (filter _ (rows (follows s))); [done|]. by apply (consistent_ext s).
Qed.

Lemma perform_all_consistent {dialect : Dialect} (calls : list call) (s : Store) :
  consistent s → consistent (perform_all calls s).
Proof.
  revert s. induction calls as [|c calls IH]; intros s Hs; [done|].
  simpl. apply IH. by apply perform_consistent.
Qed.

Lemma empty_store_consistent : consistent empty_store.
Proof.
  split; [|split; [|split]].
  - split; simpl; [apply NoDup_nil_2|apply Forall_nil_2].
  - split; simpl; [apply NoDup_nil_2|apply Forall_nil_2].
  - intros []; apply Forall_nil_2.
  - intros c p Hp. by apply elem_of_nil in Hp.
Defined.

Lemma counted_likes (s : Store) :
  counted_rows Post.likes_count_c (rows (posts s)) (references Post.likes_count_c s)
  ↔ likes_counted s.
Proof.
  unfold counted_rows, likes_counted. simpl.
  split; intros Hc p Hp; specialize (Hc p Hp); by rewrite occurrences_fmap in *.
Qed.

Lemma counted_comments (s : Store) :
  counted_rows Post.comments_count_c (rows (posts s)) (references Post.comments_count_c s)
  ↔ comments_counted s.
Proof.
  unfold counted_rows, comments_counted. simpl.
  split; intros Hc p Hp; specialize (Hc p Hp); by rewrite occurrences_fmap in *.
Qed.

Lemma counted_retweets (s : Store) :
  counted_rows Post.retweets_count_c (rows (posts s)) (references Post.retweets_count_c s)
  ↔ retweets_counted s.
Proof.
  unfold counted_rows, retweets_counted. simpl.
  split; intros Hc p Hp; specialize (Hc p Hp); by rewrite occurrences_omap in *.
Qed.

(** X1. The comment counter never drifts under the writes of the models:
    from a consistent store, after any sequence of [create], [retweet],
    [addComment], [like], [follow] and [unfollow] calls, every post's
    [comments_count] is the number of [Comment] rows of that post. *)
Theorem comments_count_invariant {dialect : Dialect} (calls : list call) (s : Store) :
  consistent s → comments_counted (perform_all calls s).
Proof.
  intros Hs. apply counted_comments.
  by destruct (perform_all_consistent calls s Hs) as (_ & _ & _ & Hc).
Qed.

Lemma comments_count_invariant_witness :
  consistent empty_store
  ∧ comments_counted (perform_all (dialect := postgres_dialect) first_calls empty_store).
Proof.
  split; [exact empty_store_consistent|].
  exact (comments_count_invariant (dialect := postgres_dialect) first_calls empty_store
           empty_store_consistent).
Defined.

(** X2. The retweet counter never drifts under these writes: from a
    consistent store, after any sequence of them, every post's
    [retweets_count] is the number of posts whose [original_post_id] is
    that post. *)
Theorem retweets_count_invariant {dialect : Dialect} (calls : list call) (s : Store) :
  consistent s → retweets_counted (perform_all calls s).
Proof.
  intros Hs. apply counted_retweets.
  by destruct (perform_all_consistent calls s Hs) as (_ & _ & _ & Hc).
Qed.

Lemma retweets_count_invariant_witness :
  consistent empty_store
  ∧ retweets_counted (perform_all (dialect := postgres_dialect) first_calls empty_store).
Proof.
  split; [exact empty_store_consistent|].
  exact (retweets_count_invariant (dialect := postgres_dialect) first_calls empty_store
           empty_store_consistent).
Defined.

(** X3. The like counter stays exact when likes are interleaved with the
    other writes (new posts, retweets, comments, follows): from a
    consistent store, after any sequence of them, every post's
    [likes_count] is the number of its [Like] rows, and the store is
    consistent again, so the three counters can be relied on in every
    store that the empty database can reach. *)
Theorem likes_count_under_all_writes {dialect : Dialect} (calls : list call) (s : Store) :
  consistent s →
  likes_counted (perform_all calls s) ∧ consistent (perform_all calls s).
Proof.
  intros Hs. pose proof (perform_all_consistent calls s Hs) as Hs'.
  split; [|done]. apply counted_likes. by destruct Hs' as (_ & _ & _ & Hc).
Qed.

Lemma likes_count_under_all_writes_witness :
  consistent empty_store
  ∧ likes_counted (perform_all (dialect := plain_dialect) first_calls empty_store).
Proof.
  split; [exact empty_store_consistent|].
  exact (proj1 (likes_count_under_all_writes (dialect := plain_dialect) first_calls
                  empty_store empty_store_consistent)).
Defined.

(** ** Deleting a post *)

Lemma filter_all {A : Type} (P : A → Prop) `{∀ x, Decision (P x)} (l : list A) :
  (∀ x, x ∈ l → P x) → filter P l = l.
Proof.
  intros HP. induction l as [|a l IH]; [done|].
  rewrite filter_cons_True by (apply HP; left). f_equal. apply IH.
  intros x Hx. apply HP. by right.
Qed.

Lemma forget_original_nil (l : list Post.attrs) : PostModel.forget_original [] <$> l = l.
Proof.
  rewrite <- (list_fmap_id l) at 2. apply list_fmap_ext. intros i p _.
  unfold PostModel.forget_original. destruct (Post.original_post_id p); [|done].
  by rewrite decide_False by apply not_elem_of_nil.
Qed.

Lemma forget_parent_nil (l : list Comment.attrs) : PostModel.forget_parent [] <$> l = l.
Proof.
  rewrite <- (list_fmap_id l) at 2. apply list_fmap_ext. intros i c _.
  unfold PostModel.forget_parent. destruct (Comment.parent_comment_id c); [|done].
  by rewrite decide_False by apply not_elem_of_nil.
Qed.

Lemma store_eta (s : Store) :
  mkStore (users s) (mkTable (rows (posts s)) (serial (posts s)))
    (mkTable (rows (comments s)) (serial (comments s))) (follows s)
    (mkTable (rows (likes s)) (serial (likes s))) (clock s) = s.
Proof. by destruct s as [? [? ?] [? ?] ? [? ?] ?]. Qed.

(** X4. [delete] by someone who does not own the post and [delete] of a
    post that does not exist cannot be told apart: whenever no post row
    has both this id and this owner, the call returns [false] and the
    store is exactly what it was. *)
Theorem delete_refused (postId userId : Z) (s : Store) :
  (∀ p, p ∈ rows (posts s) → Post.id p = postId → Post.user_id p ≠ userId) →
  PostModel.delete postId userId s = (inr false, s).
Proof.
  intros Hnone.
  assert (Hnil : filter (λ p, Post.id p = postId ∧ Post.user_id p = userId)
                        (rows (posts s)) = []).
  { apply filter_nil_intro. intros p Hp [Hid Hu]. by apply (Hnone p). }
  unfold PostModel.delete, PostModel.Post_destroy, mbind, async_bind, mret, async_ret.
  cbn zeta. rewrite Hnil. cbn [fmap list_fmap length]. rewrite (filter_not_all _ _ Hnil).
  rewrite forget_original_nil.
  rewrite (filter_nil_intro (λ c, Comment.post_id c ∈ [])) by (intros; apply not_elem_of_nil).
  cbn [fmap list_fmap]. rewrite forget_parent_nil.
  rewrite (filter_all (λ c, Comment.post_id c ∉ [])) by (intros; apply not_elem_of_nil).
  rewrite (filter_all (λ l, Like.post_id l ∉ [])) by (intros; apply not_elem_of_nil).
  simpl. by rewrite store_eta.
Qed.

Lemma delete_refused_witness :
  (∀ p, p ∈ rows (posts demo_store) → Post.id p = 3 → Post.user_id p ≠ 1)
  ∧ PostModel.delete 3 1 demo_store = (inr false, demo_store)
  ∧ PostModel.delete 9 1 demo_store = (inr false, demo_store).
Proof.
  assert (H3 : ∀ p, p ∈ rows (posts demo_store) → Post.id p = 3 → Post.user_id p ≠ 1).
  { apply (proj1 (Forall_forall (λ p, Post.id p = 3 → Post.user_id p ≠ 1) _)).
    apply (bool_decide_unpack _). vm_compute. reflexivity. }
  assert (H9 : ∀ p, p ∈ rows (posts demo_store) → Post.id p = 9 → Post.user_id p ≠ 1).
  { apply (proj1 (Forall_forall (λ p, Post.id p = 9 → Post.user_id p ≠ 1) _)).
    apply (bool_decide_unpack _). vm_compute. reflexivity. }
  split; [exact H3|]. split.
  - exact (delete_refused 3 1 demo_store H3).
  - exact (delete_refused 9 1 demo_store H9).
Defined.

Lemma filter_unique {A : Type} (f : A → Z) (P : A → Prop) `{∀ x, Decision (P x)}
    (l : list A) (p : A) :
  NoDup (f <$> l) → p ∈ l → P p → (∀ q, q ∈ l → P q → f q = f p) → filter P l = [p].
Proof.
  intros Hnd Hp HP Hsame.
  assert (Honly : ∀ q, q ∈ l → P q → q = p).
  { intros q Hq HPq. apply (NoDup_fmap_eq f l); auto. }
  clear Hsame. induction l as [|a l IH]; [by apply elem_of_nil in Hp|].
  rewrite fmap_cons in Hnd. apply NoDup_cons in Hnd as [Ha Hnd].
  apply elem_of_cons in Hp as [->|Hp].
  - rewrite filter_cons_True by done. f_equal. apply filter_nil_intro.
    intros q Hq HPq. apply Ha. rewrite <- (Honly q); [by apply list_elem_of_fmap_2|by right|done].
  - rewrite filter_cons_False.
    + apply IH; auto. intros q Hq. apply Honly. by right.
    + intros HPa. apply Ha. rewrite (Honly a); [by apply list_elem_of_fmap_2|by left|done].
Qed.

Lemma filter_filter_implied {A : Type} (Q R : A → Prop) `{∀ x, Decision (Q x)}
    `{∀ x, Decision (R x)} (l : list A) :
  (∀ x, Q x → R x) → filter Q (filter R l) = filter Q l.
Proof.
  intros HQR. induction l as [|a l IH]; [done|]. destruct (decide (R a)).
  - rewrite (filter_cons_True R) by done. destruct (decide (Q a)).
    + rewrite !(filter_cons_True Q) by done. by rewrite IH.
    + by rewrite !(filter_cons_False Q) by done.
  - rewrite (filter_cons_False R) by done. rewrite (filter_cons_False Q) by auto. done.
Qed.

Lemma length_filter_fmap {A : Type} (f : A → A) (Q : A → Prop) `{∀ x, Decision (Q x)}
    (l : list A) :
  (∀ x, Q (f x) ↔ Q x) → length (filter Q (f <$> l)) = length (filter Q l).
Proof.
  intros Hf. induction l as [|a l IH]; [done|]. rewrite fmap_cons.
  destruct (decide (Q a)).
  - rewrite !filter_cons_True by (done || by apply Hf). simpl. by rewrite IH.
  - rewrite !filter_cons_False by (done || by rewrite Hf). done.
Qed.

Lemma forget_original_id ids p : Post.id (PostModel.forget_original ids p) = Post.id p.
Proof.
  unfold PostModel.forget_original. destruct (Post.original_post_id p); [|done].
  by case_decide.
Qed.

Lemma forget_original_counter c ids p :
  counter_of c (PostModel.forget_original ids p) = counter_of c p.
Proof.
  unfold PostModel.forget_original. destruct (Post.original_post_id p); [|done].
  case_decide; [|done]. by destruct c.
Qed.

Lemma forget_original_other ids p (o : Z) :
  o ∉ ids →
  (Post.original_post_id (PostModel.forget_original ids p) = Some o
   ↔ Post.original_post_id p = Some o).
Proof.
  intros Ho. unfold PostModel.forget_original.
  destruct (Post.original_post_id p) as [o'|] eqn:E; [|by rewrite E].
  case_decide as Hin; [|by rewrite E]. simpl. split; [done|]. intros [= ->]. done.
Qed.

Lemma forget_parent_post ids c :
  Comment.post_id (PostModel.forget_parent ids c) = Comment.post_id c.
Proof.
  unfold PostModel.forget_parent. destruct (Comment.parent_comment_id c); [|done].
  by case_decide.
Qed.

(** What [delete] by the owner leaves. *)
Lemma delete_step (p : Post.attrs) (s : Store) :
  primary_key (posts s) → p ∈ rows (posts s) →
  PostModel.delete (Post.id p) (Post.user_id p) s
  = (inr true,
     mkStore (users s)
       (mkTable (PostModel.forget_original [Post.id p]
                   <$> filter (λ q, ¬ (Post.id q = Post.id p ∧ Post.user_id q = Post.user_id p))
                              (rows (posts s)))
                (serial (posts s)))
       (mkTable (PostModel.forget_parent
                   (Comment.id <$> filter (λ c, Comment.post_id c ∈ [Post.id p])
                                          (rows (comments s)))
                   <$> filter (λ c, Comment.post_id c ∉ [Post.id p]) (rows (comments s)))
                (serial (comments s)))
       (follows s)
       (mkTable (filter (λ l, Like.post_id l ∉ [Post.id p]) (rows (likes s)))
                (serial (likes s)))
       (clock s)).
Proof.
  intros [Hnd _] Hp.
  unfold PostModel.delete, PostModel.Post_destroy, mbind, async_bind, mret, async_ret.
  cbn zeta.
  rewrite (filter_unique Post.id
             (λ q, Post.id q = Post.id p ∧ Post.user_id q = Post.user_id p)
             (rows (posts s)) p Hnd Hp); [done|done|tauto].
Qed.

Lemma delete_remaining (p q : Post.attrs) (s : Store) :
  primary_key (posts s) → p ∈ rows (posts s) →
  q ∈ filter (λ q, ¬ (Post.id q = Post.id p ∧ Post.user_id q = Post.user_id p))
             (rows (posts s)) →
  q ∈ rows (posts s) ∧ Post.id q ≠ Post.id p.
Proof.
  intros [Hnd _] Hp Hq. apply list_elem_of_filter in Hq as [Hne Hq]. split; [done|].
  intros E. apply Hne. by rewrite (NoDup_fmap_eq Post.id (rows (posts s)) q p Hnd Hq Hp E).
Qed.




Lemma session_store_consistent : consistent session_store.
Proof.
  exact (perform_all_consistent (dialect := postgres_dialect) first_calls empty_store
           empty_store_consistent).
Defined.


(** ** Reading the likes back *)

Lemma getLikeInfo_run (postId : Z) (userId : option Z) (s : Store) :
  PostModel.getLikeInfo postId userId s
  = match head (filter (λ p, Post.id p = postId) (rows (posts s))) with
    | None => (inl (Error "Post not found"), s)
    | Some post =>
        (inr (PostModel.LikeInfo.mk (Post.likes_count post)
                match userId with
                | Some u =>
                    if decide (u = 0) then false
                    else bool_decide ((u, postId) ∈ like_pair <$> rows (likes s))
                | None => false
                end), s)
    end.
Proof.
  unfold PostModel.getLikeInfo, Db.findByPk, mbind, async_bind. simpl.
  destruct (head (filter _ (rows (posts s)))) as [post|]; [|done].
  destruct userId as [u|]; [|done]. case_decide; [done|].
  by rewrite isLikedBy_pairs.
Qed.

(** X7. What [getLikeInfo] reads after a [like].  On a store with the
    primary key and the unique index of [likes], for an existing post and
    a viewer id other than zero, [getLikeInfo] right after [like] reports
    the state that [like] announced and the count read before the call
    plus or minus one, whether or not the dialect refreshes the instance;
    an anonymous viewer gets the same count and [user_liked = false]. *)
Theorem getLikeInfo_after_like {dialect : Dialect} (postId userId : Z) (s : Store)
    (post : Post.attrs) :
  primary_key (likes s) → likes_unique s → userId ≠ 0 →
  eval (Db.findByPk postId) s = inr (Some post) →
  let s' := exec (PostModel.like postId userId) s in
  ∃ r, eval (PostModel.like postId userId) s = inr r
       ∧ PostModel.getLikeInfo postId (Some userId) s'
         = (inr (PostModel.LikeInfo.mk
                   (Post.likes_count post + (if PostModel.liked r then 1 else -1))
                   (PostModel.liked r)), s')
       ∧ PostModel.getLikeInfo postId None s'
         = (inr (PostModel.LikeInfo.mk
                   (Post.likes_count post + (if PostModel.liked r then 1 else -1))
                   false), s').
Proof.
  intros Hpk Huniq Hu Hpost s'. subst s'.
  unfold eval, Db.findByPk in Hpost. simpl in Hpost. injection Hpost as Hpost.
  unfold eval, exec. rewrite like_step, Hpost. rewrite !getLikeInfo_run.
  destruct (head (filter _ (rows (likes s)))) as [l|] eqn:Hl; cbn -[bump after_await].
  - apply head_filter_Some in Hl as [Hin [Hlu Hlp]].
    rewrite (bump_head Post.likes_count_c (-1)), Hpost. cbn -[after_await].
    eexists. split; [reflexivity|]. rewrite decide_False by done. cbn -[after_await].
    split; [|done]. do 3 f_equal. apply bool_decide_eq_false. intros Hpair.
    apply list_elem_of_fmap in Hpair as (r & E & Hr).
    apply list_elem_of_filter in Hr as [Hne Hr]. apply Hne. f_equal.
    apply (NoDup_fmap_eq like_pair (rows (likes s))); try done.
    unfold like_pair. by rewrite Hlu, Hlp.
  - rewrite (bump_head Post.likes_count_c 1), Hpost. cbn -[after_await].
    eexists. split; [reflexivity|]. rewrite decide_False by done. cbn -[after_await].
    split; [|done]. do 3 f_equal. apply bool_decide_eq_true.
    rewrite fmap_app. apply elem_of_app. right. by apply list_elem_of_singleton.
Qed.

Lemma getLikeInfo_after_like_witness :
  primary_key (likes demo_store) ∧ likes_unique demo_store ∧ (1:Z) ≠ 0
  ∧ ∃ r, eval (PostModel.like (dialect := postgres_dialect) 2 1) demo_store = inr r
         ∧ PostModel.like_count r = 3
         ∧ eval (PostModel.getLikeInfo 2 (Some 1))
                (exec (PostModel.like (dialect := postgres_dialect) 2 1) demo_store)
           = inr (PostModel.LikeInfo.mk 2 true).
Proof.
  split; [exact demo_likes_key|]. split; [exact demo_likes_unique|]. split; [done|].
  destruct (getLikeInfo_after_like (dialect := postgres_dialect) 2 1 demo_store
              (Post.mk 2 1 "second" 1 0 0 None false None 20)
              demo_likes_key demo_likes_unique ltac:(done) eq_refl) as (r & Hr & Hinfo & _).
  exists r. split; [exact Hr|]. injection Hr as <-. split; [reflexivity|].
  unfold eval. by rewrite Hinfo.
Defined.

(** ** The global feed *)

Lemma flatten_rows (s : Store) (l : list Post.attrs) :
  authors_exist s → (∀ p, p ∈ l → p ∈ rows (posts s)) →
  ∃ data, PostModel.flatten_all (PostModel.with_includes s <$> l) = inr data
          ∧ feed_rows data = l
          ∧ Forall (λ d, PostModel.likes d = Post.likes_count (PostModel.row (PostModel.json d)))
                   data.
Proof.
  intros Hfk Hl. induction l as [|p l IH].
  - exists []. by repeat split.
  - destruct IH as (data & Hdata & Hrows & Hlikes); [intros q Hq; apply Hl; by right|].
    unfold authors_exist in Hfk. rewrite Forall_forall in Hfk.
    destruct (include_author_Some PostModel.author_attributes (Post.user_id p) s
                (Hfk p (Hl p ltac:(left)))) as [a Ha].
    rewrite fmap_cons. simpl. unfold PostModel.flatten. simpl. rewrite Ha, Hdata.
    eexists. split; [reflexivity|]. split.
    + unfold feed_rows in *. rewrite fmap_cons. simpl. by rewrite Hrows.
    + by apply Forall_cons.
Qed.

Lemma getAll_run (limit offset : nat) (userId : option Z) (s : Store) :
  authors_exist s →
  ∃ data, PostModel.getAll limit offset userId s = (inr data, s)
          ∧ feed_rows data
            = page limit offset
                (order_desc Post.created_at
                   (filter (PostModel.whereClause userId) (rows (posts s))))
          ∧ Forall (λ d, PostModel.likes d = Post.likes_count (PostModel.row (PostModel.json d)))
                   data.
Proof.
  intros Hfk.
  destruct (flatten_rows s
              (page limit offset
                 (order_desc Post.created_at
                    (filter (PostModel.whereClause userId) (rows (posts s))))) Hfk)
    as (data & Hdata & Hrows & Hlikes).
  { intros p Hp. apply elem_of_page in Hp. unfold order_desc in Hp.
    rewrite merge_sort_Permutation in Hp. by apply list_elem_of_filter in Hp as [_ ?]. }
  exists data. split; [|done].
  unfold PostModel.getAll, read, settle, mbind, async_bind. simpl. by rewrite Hdata.
Qed.

(** X8. The global feed.  When every post has its author row, [getAll]
    does not throw, leaves the store alone and returns the page
    [offset, offset + limit) of the posts selected by its where clause,
    newest first.  With an author id other than zero every returned post
    is by that author; with no author, or with the id zero, which the
    test [if (userId)] takes for none, the feed is made of all posts. *)
Theorem getAll_feed (limit offset : nat) (userId : option Z) (s : Store) :
  authors_exist s →
  ∃ feed data,
    feed ≡ₚ filter (PostModel.whereClause userId) (rows (posts s))
    ∧ StronglySorted (newest_first Post.created_at) feed
    ∧ PostModel.getAll limit offset userId s = (inr data, s)
    ∧ feed_rows data = take limit (drop offset feed)
    ∧ (∀ u, userId = Some u → u ≠ 0 → Forall (λ p, Post.user_id p = u) (feed_rows data))
    ∧ (userId = None ∨ userId = Some 0 → feed ≡ₚ rows (posts s)).
Proof.
  intros Hfk. destruct (getAll_run limit offset userId s Hfk) as (data & Hrun & Hrows & _).
  set (feed := order_desc Post.created_at
                 (filter (PostModel.whereClause userId) (rows (posts s)))) in *.
  assert (Hperm : feed ≡ₚ filter (PostModel.whereClause userId) (rows (posts s)))
    by apply merge_sort_Permutation.
  exists feed, data. split; [done|]. split; [apply StronglySorted_merge_sort; apply _|].
  split; [done|]. split; [done|]. split.
  - intros u -> Hu. rewrite Hrows. apply Forall_forall. intros p Hp.
    apply elem_of_page in Hp. rewrite Hperm in Hp.
    apply list_elem_of_filter in Hp as [Hw _]. simpl in Hw. by rewrite decide_False in Hw.
  - intros Hall. rewrite Hperm. rewrite filter_all; [done|].
    intros p _. by destruct Hall as [-> | ->].
Qed.

Lemma getAll_feed_witness :
  authors_exist demo_store
  ∧ ∃ data, PostModel.getAll 2 1 (Some 1) demo_store = (inr data, demo_store)
            ∧ feed_rows data = [Post.mk 1 1 "first" 0 0 0 None false None 10].
Proof.
  split; [exact demo_authors|].
  destruct (getAll_feed 2 1 (Some 1) demo_store demo_authors)
    as (feed & data & _ & _ & Hrun & _).
  exists data. split; [exact Hrun|].
  vm_compute in Hrun. injection Hrun as <-. reflexivity.
Defined.

Lemma mapM_reads {A B : Type} (f : A → Async B) (g : A → B) (l : list A) (s : Store) :
  Forall (λ a, f a s = (inr (g a), s)) l → mapM f l s = (inr (g <$> l), s).
Proof.
  induction 1 as [|a l Ha _ IH]; [done|].
  simpl. unfold mbind, async_bind at 1. rewrite Ha. simpl.
  unfold mbind, async_bind at 1. by rewrite IH.
Qed.

Lemma head_filter_elem {A : Type} (P : A → Prop) `{∀ x, Decision (P x)} (l : list A) (x : A) :
  x ∈ l → P x → is_Some (head (filter P l)).
Proof.
  intros Hx HP. destruct (head (filter P l)) eqn:E; [by eexists|].
  exfalso. by apply (head_filter_None P l E x).
Qed.

(** [getPostsWithLikeInfo] on posts that are in the store. *)
Lemma getPostsWithLikeInfo_run {A : Type} (id : A → Z) (l : list A) (viewer : option Z)
    (s : Store) :
  Forall (λ a, ∃ p, p ∈ rows (posts s) ∧ Post.id p = id a) l →
  ∃ enriched,
    PostModel.getPostsWithLikeInfo id l viewer s = (inr enriched, s)
    ∧ PostModel.plainPost <$> enriched = l
    ∧ Forall (λ e,
        PostModel.with_likes e = PostModel.with_like_count e
        ∧ PostModel.with_user_liked e = viewer_liked viewer (id (PostModel.plainPost e)) s
        ∧ ∃ p, head (filter (λ p, Post.id p = id (PostModel.plainPost e)) (rows (posts s)))
               = Some p
               ∧ PostModel.with_like_count e = Post.likes_count p) enriched.
Proof.
  intros Hl.
  set (g := λ a : A,
    let count := from_option Post.likes_count 0
                   (head (filter (λ p, Post.id p = id a) (rows (posts s)))) in
    PostModel.mkWithLikeInfo a count (viewer_liked viewer (id a) s) count).
  exists (g <$> l). split; [|split].
  - unfold PostModel.getPostsWithLikeInfo. apply mapM_reads.
    eapply Forall_impl; [exact Hl|]. intros a (p & Hp & Hid). simpl.
    unfold mbind, async_bind. rewrite getLikeInfo_run.
    destruct (head_filter_elem (λ p, Post.id p = id a) _ p Hp Hid) as [q Hq].
    unfold g. by rewrite Hq.
  - rewrite <- list_fmap_compose. apply list_fmap_id.
  - apply Forall_fmap. eapply Forall_impl; [exact Hl|]. intros a (p & Hp & Hid). simpl.
    destruct (head_filter_elem (λ p, Post.id p = id a) _ p Hp Hid) as [q Hq].
    split; [done|]. split; [done|]. exists q. by rewrite Hq.
Qed.

(** X9. Listing and enriching compose.  On a store whose posts have
    their primary key and their author rows, the posts that [getAll]
    returns can always be handed to [getPostsWithLikeInfo]: it does not
    throw, keeps the posts and their order, and gives each one its stored
    [likes_count] as [like_count] and as [likes] (the value that the feed
    already carried) and the viewer's own like as [user_liked], which is
    [false] for an anonymous viewer. *)
Theorem getAll_with_like_info (limit offset : nat) (userId viewer : option Z)
    (s : Store) :
  primary_key (posts s) → authors_exist s →
  ∃ data enriched,
    PostModel.getAll limit offset userId s = (inr data, s)
    ∧ PostModel.getPostsWithLikeInfo (λ d, Post.id (PostModel.row (PostModel.json d)))
        data viewer s = (inr enriched, s)
    ∧ PostModel.plainPost <$> enriched = data
    ∧ Forall (λ e,
        PostModel.with_like_count e
          = Post.likes_count (PostModel.row (PostModel.json (PostModel.plainPost e)))
        ∧ PostModel.with_likes e = PostModel.likes (PostModel.plainPost e)
        ∧ PostModel.with_user_liked e
          = viewer_liked viewer
              (Post.id (PostModel.row (PostModel.json (PostModel.plainPost e)))) s
        ∧ (viewer = None → PostModel.with_user_liked e = false)) enriched.
Proof.
  intros [Hnd _] Hfk.
  destruct (getAll_run limit offset userId s Hfk) as (data & Hrun & Hrows & Hlikes).
  assert (Hin : ∀ d, d ∈ data → PostModel.row (PostModel.json d) ∈ rows (posts s)).
  { intros d Hd. assert (Hr : PostModel.row (PostModel.json d) ∈ feed_rows data).
    { unfold feed_rows. by apply (list_elem_of_fmap_2 (λ d, PostModel.row (PostModel.json d))). }
    rewrite Hrows in Hr. apply elem_of_page in Hr. unfold order_desc in Hr.
    rewrite merge_sort_Permutation in Hr. by apply list_elem_of_filter in Hr as [_ ?]. }
  destruct (getPostsWithLikeInfo_run (λ d, Post.id (PostModel.row (PostModel.json d)))
              data viewer s) as (enriched & Henr & Hplain & Hall).
  { apply Forall_forall. intros d Hd. eauto. }
  exists data, enriched. split; [done|]. split; [done|]. split; [done|].
  rewrite Forall_forall in Hall. rewrite Forall_forall in Hlikes.
  apply Forall_forall. intros e He.
  destruct (Hall e He) as (Hl & Hv & p & Hp & Hc).
  assert (Hd : PostModel.plainPost e ∈ data).
  { rewrite <- Hplain. by apply list_elem_of_fmap_2. }
  apply head_filter_Some in Hp as [Hp Hid].
  assert (p = PostModel.row (PostModel.json (PostModel.plainPost e))) as ->.
  { apply (NoDup_fmap_eq Post.id (rows (posts s))); auto. }
  split; [done|]. split; [by rewrite Hl, Hc, (Hlikes _ Hd)|]. split; [done|].
  intros ->. by rewrite Hv.
Qed.

Lemma getAll_with_like_info_witness :
  primary_key (posts demo_store) ∧ authors_exist demo_store
  ∧ ∃ data enriched,
      PostModel.getAll 20 0 None demo_store = (inr data, demo_store)
      ∧ PostModel.getPostsWithLikeInfo (λ d, Post.id (PostModel.row (PostModel.json d)))
          data (Some 2) demo_store = (inr enriched, demo_store)
      ∧ PostModel.plainPost <$> enriched = data.
Proof.
  split; [exact demo_posts_key|]. split; [exact demo_authors|].
  destruct (getAll_with_like_info 20 0 None (Some 2) demo_store demo_posts_key demo_authors)
    as (data & enriched & H1 & H2 & H3 & _).
  by exists data, enriched.
Defined.

(** ** Paging through the feed *)

Lemma listPosts_page (viewer : option Z) (limit : Z) (k : nat) (s : Store) :
  authors_exist s → 0 < limit →
  ∃ enriched,
    PostRoutes.listPosts viewer (Some (Z.of_nat k + 1)) (Some limit) false None s
    = (inr (PostRoutes.mkResponse 200
              (PostRoutes.PostsBody enriched (Z.of_nat k + 1) limit)), s)
    ∧ (λ e, PostModel.row (PostModel.json (PostModel.plainPost e))) <$> enriched
      = take (Z.to_nat limit)
          (drop (k * Z.to_nat limit) (order_desc Post.created_at (rows (posts s)))).
Proof.
  intros Hfk Hlimit.
  destruct (getAll_run (Z.to_nat limit) (k * Z.to_nat limit) None s Hfk)
    as (data & Hrun & Hrows & _).
  rewrite (filter_all (PostModel.whereClause None)) in Hrows by done.
  destruct (getPostsWithLikeInfo_run (λ d, Post.id (PostModel.row (PostModel.json d)))
              data viewer s) as (enriched & Henr & Hplain & _).
  { apply Forall_forall. intros d Hd. exists (PostModel.row (PostModel.json d)).
    split; [|done].
    assert (Hr : PostModel.row (PostModel.json d) ∈ feed_rows data).
    { unfold feed_rows. by apply (list_elem_of_fmap_2 (λ d, PostModel.row (PostModel.json d))). }
    rewrite Hrows in Hr. apply elem_of_page in Hr. unfold order_desc in Hr.
    by rewrite merge_sort_Permutation in Hr. }
  exists enriched. split.
  - unfold PostRoutes.listPosts, AuthRoutes.try_catch, PostRoutes.or_default,
      PostRoutes.paged.
    rewrite (decide_False (P := Z.of_nat k + 1 = 0)) by lia.
    rewrite (decide_False (P := limit = 0)) by lia.
    rewrite (decide_False (P := limit < 0)) by lia.
    rewrite (decide_False (P := (Z.of_nat k + 1 - 1) * limit < 0)) by nia.
    replace (Z.to_nat ((Z.of_nat k + 1 - 1) * limit)) with (k * Z.to_nat limit)%nat by nia.
    unfold mbind, async_bind. by rewrite Hrun, Henr.
  - rewrite (list_fmap_compose PostModel.plainPost
               (λ d, PostModel.row (PostModel.json d))), Hplain.
    exact Hrows.
Qed.

(** X10. Paging through [GET /].  With author rows in place, posts
    created at distinct instants and a positive [limit], pages 1 to [n]
    of the global feed answer 200, leave the store alone and, put end to
    end, are exactly the first [n * limit] posts of the feed, newest
    first: no post is skipped and none comes twice.  A missing page is
    page 1, and a negative page is answered with 500, its offset being
    refused by the store. *)
Theorem listPosts_pages (viewer : option Z) (limit : Z) (n : nat) (s : Store) :
  authors_exist s → distinct_times s → 0 < limit →
  mjoin ((λ k, response_rows
                 (PostRoutes.listPosts viewer (Some (Z.of_nat k + 1)) (Some limit)
                    false None s)) <$> seq 0 n)
  = take (n * Z.to_nat limit) (order_desc Post.created_at (rows (posts s)))
  ∧ (∀ k : nat, ∃ r,
       PostRoutes.listPosts viewer (Some (Z.of_nat k + 1)) (Some limit) false None s
       = (inr r, s) ∧ PostRoutes.status r = 200)
  ∧ PostRoutes.listPosts viewer None (Some limit) false None s
    = PostRoutes.listPosts viewer (Some 1) (Some limit) false None s
  ∧ (∀ page, page < 0 →
       PostRoutes.listPosts viewer (Some page) (Some limit) false None s
       = (inr (PostRoutes.mkResponse 500 (PostRoutes.ErrorBody "Internal server error")),
          s)).
Proof.
  intros Hfk _ Hlimit. split; [|split; [|split]].
  - induction n as [|n IH]; [done|].
    rewrite seq_S, fmap_app, join_app, IH. simpl. rewrite app_nil_r.
    destruct (listPosts_page viewer limit n s Hfk Hlimit) as (enriched & -> & Hrows).
    unfold response_rows. simpl. rewrite Hrows.
    rewrite take_take_drop. f_equal. lia.
  - intros k. destruct (listPosts_page viewer limit k s Hfk Hlimit) as (enriched & -> & _).
    by eexists.
  - done.
  - intros page Hpage.
    unfold PostRoutes.listPosts, AuthRoutes.try_catch, PostRoutes.or_default,
      PostRoutes.paged.
    rewrite (decide_False (P := page = 0)) by lia.
    rewrite (decide_False (P := limit = 0)) by lia.
    rewrite (decide_False (P := limit < 0)) by lia.
    rewrite (decide_True (P := (page - 1) * limit < 0)) by nia.
    done.
Qed.

Lemma listPosts_pages_witness :
  authors_exist demo_store ∧ (0:Z) < 2
  ∧ mjoin ((λ k, response_rows
                   (PostRoutes.listPosts None (Some (Z.of_nat k + 1)) (Some 2)
                      false None demo_store)) <$> seq 0 2)
    = [Post.mk 3 2 "third" 0 0 0 None false None 30;
       Post.mk 2 1 "second" 1 0 0 None false None 20;
       Post.mk 1 1 "first" 0 0 0 None false None 10].
Proof.
  assert (Htimes : distinct_times demo_store)
    by (apply (bool_decide_unpack _); vm_compute; reflexivity).
  split; [exact demo_authors|]. split; [done|].
  rewrite (proj1 (listPosts_pages None 2 2 demo_store demo_authors Htimes ltac:(done))).
  vm_compute. reflexivity.
Defined.

(** ** Creating a post through the route *)

Lemma length_string_of_list (l : list ascii) :
  String.length (String.string_of_list_ascii l) = length l.
Proof. induction l as [|c l IH]; [done|]. simpl. by rewrite IH. Qed.

Lemma length_list_of_string (s : string) :
  length (String.list_ascii_of_string s) = String.length s.
Proof. induction s as [|c s IH]; [done|]. simpl. by rewrite IH. Qed.

Lemma length_drop_spaces (l : list ascii) : (length (drop_spaces l) ≤ length l)%nat.
Proof.
  induction l as [|c l IH]; [done|]. simpl. destruct (is_space c); simpl; lia.
Qed.

Lemma length_trim (l : list ascii) : (length (trim l) ≤ length l)%nat.
Proof.
  unfold trim. rewrite length_reverse.
  etrans; [apply length_drop_spaces|]. rewrite length_reverse. apply length_drop_spaces.
Qed.

Lemma length_js_trim (s : string) :
  (String.length (PostRoutes.js_trim s) ≤ String.length s)%nat.
Proof.
  unfold PostRoutes.js_trim. rewrite length_string_of_list, <- length_list_of_string.
  apply length_trim.
Qed.

(** X11. The rule on post bodies, as [POST /] applies it.  A missing
    body, a body that is blank once trimmed and a body of more than 280
    code units before trimming are refused with 400 and nothing is
    written.  Every other body is accepted with 201 and adds exactly one
    post, by the caller, with the trimmed text, of 1 to 280 code units,
    and the three counters at zero. *)
Theorem createPost_validation (userId : Z) (content : option string) (s : Store) :
  (∀ c, content = Some c → PostRoutes.js_trim c ≠ "" → (String.length c ≤ 280)%nat →
     ∃ body s',
       PostRoutes.createPost userId content s = (inr (PostRoutes.mkResponse 201 body), s')
       ∧ rows (posts s')
         = rows (posts s)
           ++ [Post.mk (serial (posts s)) userId (PostRoutes.js_trim c) 0 0 0 None false
                 None (clock s)]
       ∧ (1 ≤ String.length (PostRoutes.js_trim c) ≤ 280)%nat
       ∧ users s' = users s ∧ comments s' = comments s
       ∧ follows s' = follows s ∧ likes s' = likes s)
  ∧ ((content = None
      ∨ ∃ c, content = Some c
             ∧ (PostRoutes.js_trim c = "" ∨ (280 < String.length c)%nat)) →
     ∃ error,
       PostRoutes.createPost userId content s
       = (inr (PostRoutes.mkResponse 400 (PostRoutes.ErrorBody error)), s)).
Proof.
  split.
  - intros c -> Hc Hlen.
    unfold PostRoutes.createPost, AuthRoutes.try_catch.
    rewrite decide_False.
    2:{ intros [-> | E]; [by apply Hc|done]. }
    rewrite decide_False by lia.
    unfold mbind, async_bind at 1.
    set (new := Post.mk (serial (posts s)) userId (PostRoutes.js_trim c) 0 0 0 None false
                  None (clock s)).
    set (s1 := mkStore (users s) (mkTable (rows (posts s) ++ [new]) (serial (posts s) + 1))
                 (comments s) (follows s) (likes s) (clock s)).
    assert (Hnew : new ∈ rows (posts s1)).
    { simpl. apply elem_of_app. right. by apply list_elem_of_singleton. }
    destruct (head_filter_elem (λ p, Post.id p = serial (posts s)) (rows (posts s1)) new
                Hnew eq_refl) as [found Hfound].
    assert (Hcreate : PostModel.create userId (PostRoutes.js_trim c) s
                      = (inr (Some (PostModel.with_includes s1 found)), s1)).
    { transitivity
        (@inr exn _ (PostModel.with_includes s1
                       <$> head (filter (λ p, Post.id p = serial (posts s)) (rows (posts s1)))),
         s1); [reflexivity|]. by rewrite Hfound. }
    rewrite Hcreate.
    apply head_filter_Some in Hfound as [Hin Hid].
    destruct (getPostsWithLikeInfo_run (λ j, Post.id (PostModel.row j))
                [PostModel.with_includes s1 found] (Some userId) s1)
      as (enriched & Henr & _).
    { apply Forall_singleton. exists found. by split. }
    unfold mbind, async_bind. rewrite Henr.
    eexists _, s1. split; [reflexivity|]. split; [done|]. split; [|done].
    split; [|etrans; [apply length_js_trim|done]].
    destruct (PostRoutes.js_trim c); [done|simpl; lia].
  - intros [-> | (c & -> & Hbad)]; [by eexists|].
    unfold PostRoutes.createPost, AuthRoutes.try_catch.
    destruct Hbad as [Hblank|Hlong].
    + rewrite decide_True by tauto. by eexists.
    + case_decide; [by eexists|]. rewrite decide_True by done. by eexists.
Qed.

Lemma createPost_validation_witness :
  PostRoutes.js_trim "  hello  " ≠ "" ∧ (String.length "  hello  " ≤ 280)%nat
  ∧ ∃ body s',
      PostRoutes.createPost 2 (Some "  hello  ") demo_store
      = (inr (PostRoutes.mkResponse 201 body), s')
      ∧ rows (posts s')
        = rows (posts demo_store) ++ [Post.mk 4 2 "hello" 0 0 0 None false None 40].
Proof.
  assert (H1 : PostRoutes.js_trim "  hello  " ≠ "") by (vm_compute; discriminate).
  assert (H2 : (String.length "  hello  " ≤ 280)%nat) by (simpl; lia).
  split; [exact H1|]. split; [exact H2|].
  destruct (proj1 (createPost_validation 2 (Some "  hello  ") demo_store)
              "  hello  " eq_refl H1 H2) as (body & s' & Hrun & Hrows & _).
  exists body, s'. split; [exact Hrun|exact Hrows].
Defined.

(** ** Following, undone, and the counters of a profile *)

Lemma filter_snoc_fresh {A : Type} (P : A → Prop) `{∀ x, Decision (P x)} (l : list A) (x : A) :
  filter P l = [] → filter (λ y, ¬ P y) (l ++ [x]) = l ++ filter (λ y, ¬ P y) [x].
Proof. intros E. by rewrite filter_app, (filter_not_all P l E). Qed.

Lemma not_following (a b : Z) (s : Store) :
  eval (UserModel.isFollowing a b) s = inr false →
  filter (edge a b) (rows (follows s)) = [].
Proof.
  intros Hnot. unfold eval in Hnot. rewrite isFollowing_edge in Hnot.
  simpl in Hnot. injection Hnot as Hnot. apply bool_decide_eq_false in Hnot.
  apply filter_nil_intro. intros f Hf He. apply Hnot, Exists_exists. by exists f.
Qed.

Lemma follow_run (a b : Z) (s : Store) :
  a ≠ b →
  filter (edge a b) (rows (follows s)) = [] →
  UserModel.follow a b s
  = (inr (UserModel.mkAck true "Successfully followed user"),
     mkStore (users s) (posts s) (comments s)
       (mkTable (rows (follows s) ++ [Follow.mk (serial (follows s)) a b])
                (serial (follows s) + 1))
       (likes s) (clock s)).
Proof. intros Hab Hnone. rewrite follow_step, decide_False by done. by rewrite Hnone. Qed.

Lemma follow_unfollow_run (a b : Z) (s : Store) :
  a ≠ b →
  filter (edge a b) (rows (follows s)) = [] →
  UserModel.unfollow a b (exec (UserModel.follow a b) s)
  = (inr (UserModel.mkAck true "Successfully unfollowed user"),
     mkStore (users s) (posts s) (comments s)
       (mkTable (rows (follows s)) (serial (follows s) + 1)) (likes s) (clock s)).
Proof.
  intros Hab Hnone. unfold exec. rewrite follow_run by done. cbn [snd].
  rewrite unfollow_step. cbn [follows rows serial users posts comments likes clock].
  rewrite filter_app, Hnone, filter_cons_True by done. cbn [app].
  rewrite filter_snoc_fresh by done.
  by rewrite filter_cons_False, filter_nil, app_nil_r by (intros E; by apply E).
Qed.

(** X12. Following and then unfollowing is a round trip on the edges.
    When user [a] does not follow user [b], [follow] then [unfollow] both
    succeed and leave the rows of [follows] as they were; only the serial
    of the table has advanced, so a later edge gets a new id.  Nothing
    else in the store changes. *)
Theorem follow_then_unfollow (a b : Z) (s : Store) :
  registered a s → registered b s →
  a ≠ b →
  eval (UserModel.isFollowing a b) s = inr false →
  let s1 := exec (UserModel.follow a b) s in
  let s2 := exec (UserModel.unfollow a b) s1 in
  eval (UserModel.follow a b) s = inr (UserModel.mkAck true "Successfully followed user")
  ∧ eval (UserModel.unfollow a b) s1
    = inr (UserModel.mkAck true "Successfully unfollowed user")
  ∧ rows (follows s2) = rows (follows s)
  ∧ serial (follows s2) = serial (follows s) + 1
  ∧ users s2 = users s ∧ posts s2 = posts s ∧ comments s2 = comments s
  ∧ likes s2 = likes s
  ∧ eval (UserModel.isFollowing a b) s2 = inr false.
Proof.
  intros _ _ Hab Hnot. pose proof (not_following a b s Hnot) as Hnone.
  cbv zeta.
  assert (Hs2 : exec (UserModel.unfollow a b) (exec (UserModel.follow a b) s)
                = mkStore (users s) (posts s) (comments s)
                    (mkTable (rows (follows s)) (serial (follows s) + 1)) (likes s)
                    (clock s))
    by (unfold exec at 1; by rewrite follow_unfollow_run).
  rewrite Hs2. unfold eval. rewrite follow_unfollow_run, follow_run by done.
  repeat split; try reflexivity.
  rewrite isFollowing_edge. cbn [fst follows rows]. f_equal.
  apply bool_decide_eq_false. intros He. apply Exists_exists in He as (f & Hf & He).
  by apply (head_filter_None (edge a b) (rows (follows s)) (f_equal head Hnone) f).
Qed.

Lemma follow_then_unfollow_witness :
  let s2 := exec (UserModel.unfollow 2 1) (exec (UserModel.follow 2 1) demo_store) in
  rows (follows s2) = rows (follows demo_store)
  ∧ serial (follows s2) = serial (follows demo_store) + 1.
Proof.
  assert (Ha : registered 2 demo_store) by (apply (bool_decide_unpack _); reflexivity).
  assert (Hb : registered 1 demo_store) by (apply (bool_decide_unpack _); reflexivity).
  assert (H1 : (2 : Z) ≠ 1) by lia.
  assert (H2 : eval (UserModel.isFollowing 2 1) demo_store = inr false)
    by (vm_compute; reflexivity).
  destruct (follow_then_unfollow 2 1 demo_store Ha Hb H1 H2)
    as (_ & _ & Hrows & Hserial & _).
  split; [exact Hrows|exact Hserial].
Defined.

Lemma findById_stats (id : Z) (s : Store) :
  eval (UserModel.findById id true) s
  = inr ((λ u,
           <["following_count" :=
               JNum (Z.of_nat (length (filter (λ f, Follow.follower_id f = id)
                                         (rows (follows s)))))]>
             (<["followers_count" :=
                  JNum (Z.of_nat (length (filter (λ f, Follow.following_id f = id)
                                            (rows (follows s)))))]>
                (delete "password_hash" (dataValues u))))
         <$> head (filter (λ u, User.id u = id) (rows (users s)))).
Proof.
  unfold eval, UserModel.findById, Db.findByPk, mbind, async_bind.
  change (rows (table (R := User.attrs) s)) with (rows (users s)).
  change (λ r : User.attrs, pk r = id) with (λ u : User.attrs, User.id u = id).
  by destruct (head (filter (λ u, User.id u = id) (rows (users s)))).
Qed.

Lemma length_filter_snoc {A : Type} (P : A → Prop) `{∀ x, Decision (P x)} (l : list A)
    (x : A) :
  Z.of_nat (length (filter P (l ++ [x])))
  = Z.of_nat (length (filter P l)) + (if decide (P x) then 1 else 0).
Proof.
  rewrite filter_app, length_app. destruct (decide (P x)).
  - rewrite filter_cons_True by done. simpl. lia.
  - rewrite filter_cons_False by done. simpl. lia.
Qed.

(** X13. What a follow does to the profiles.  When user [a] starts to
    follow user [b], the profile with statistics of any user [id] keeps all its
    properties but the two counters: [followers_count] grows by one for
    [b] and [following_count] by one for [a], and both stay as they were
    for everybody else.  Unfollowing brings every profile back. *)
Theorem follow_counts (a b id : Z) (s : Store) (o : gmap string JsVal) :
  registered a s → registered b s →
  a ≠ b →
  eval (UserModel.isFollowing a b) s = inr false →
  eval (UserModel.findById id true) s = inr (Some o) →
  let s1 := exec (UserModel.follow a b) s in
  ∃ followers following,
    o !! "followers_count" = Some (JNum followers)
    ∧ o !! "following_count" = Some (JNum following)
    ∧ eval (UserModel.findById id true) s1
      = inr (Some (<["following_count" :=
                       JNum (following + (if decide (id = a) then 1 else 0))]>
                     (<["followers_count" :=
                          JNum (followers + (if decide (id = b) then 1 else 0))]> o)))
    ∧ eval (UserModel.findById id true) (exec (UserModel.unfollow a b) s1) = inr (Some o).
Proof.
  intros _ _ Hab Hnot Ho. pose proof (not_following a b s Hnot) as Hnone.
  cbv zeta. rewrite findById_stats in Ho.
  destruct (head (filter (λ u, User.id u = id) (rows (users s)))) as [u|] eqn:Hu;
    [|discriminate].
  simpl in Ho. injection Ho as <-.
  eexists _, _. split; [by rewrite lookup_insert_ne, lookup_insert_eq|].
  split; [by rewrite lookup_insert_eq|]. split.
  - rewrite findById_stats. unfold exec. rewrite follow_run by done.
    cbn [snd follows users rows]. rewrite Hu. cbn [fmap option_fmap option_map].
    rewrite !length_filter_snoc. cbn [Follow.follower_id Follow.following_id].
    do 2 f_equal.
    rewrite (insert_insert_ne _ "followers_count" "following_count") by done.
    rewrite insert_insert_eq, insert_insert_eq.
    repeat (f_equal; try (repeat case_decide; congruence)).
  - assert (Hs2 : exec (UserModel.unfollow a b) (exec (UserModel.follow a b) s)
                  = mkStore (users s) (posts s) (comments s)
                      (mkTable (rows (follows s)) (serial (follows s) + 1)) (likes s)
                      (clock s))
      by (unfold exec at 1; by rewrite follow_unfollow_run).
    rewrite Hs2, findById_stats. cbn [follows users rows]. by rewrite Hu.
Qed.

Lemma follow_counts_witness :
  ∃ o followers following,
    eval (UserModel.findById 1 true) demo_store = inr (Some o)
    ∧ o !! "followers_count" = Some (JNum followers)
    ∧ eval (UserModel.findById 1 true) (exec (UserModel.follow 2 1) demo_store)
      = inr (Some (<["following_count" := JNum (following + 0)]>
                     (<["followers_count" := JNum (followers + 1)]> o))).
Proof.
  assert (H1 : (2 : Z) ≠ 1) by lia.
  assert (H2 : eval (UserModel.isFollowing 2 1) demo_store = inr false)
    by (vm_compute; reflexivity).
  destruct (eval (UserModel.findById 1 true) demo_store) as [e|[o|]] eqn:Ho;
    [vm_compute in Ho; discriminate| |vm_compute in Ho; discriminate].
  assert (Ha : registered 2 demo_store) by (apply (bool_decide_unpack _); reflexivity).
  assert (Hb : registered 1 demo_store) by (apply (bool_decide_unpack _); reflexivity).
  destruct (follow_counts 2 1 1 demo_store o Ha Hb H1 H2 Ho)
    as (followers & following & Hf & _ & Hrun & _).
  exists o, followers, following. split; [reflexivity|]. split; [exact Hf|exact Hrun].
Defined.

(** ** Creating a user *)

Lemma filter_snoc_only {A : Type} (P : A → Prop) `{∀ x, Decision (P x)} (l : list A) (x : A) :
  (∀ y, y ∈ l → ¬ P y) → P x → head (filter P (l ++ [x])) = Some x.
Proof.
  intros Hl Hx. by rewrite filter_app, (filter_nil_intro P l Hl), filter_cons_True.
Qed.

Lemma User_create_run (build : Z → User.attrs) (s : Store) :
  UserModel.User_create build s
  = if decide (Exists (UserModel.conflicts (build (serial (users s)))) (rows (users s)))
    then (inl UniqueConstraintError, s)
    else (inr (build (serial (users s))),
          mkStore (mkTable (rows (users s) ++ [build (serial (users s))])
                     (serial (users s) + 1))
            (posts s) (comments s) (follows s) (likes s) (clock s)).
Proof.
  unfold UserModel.User_create.
  by destruct (decide (Exists (UserModel.conflicts (build (serial (users s))))
                         (rows (users s)))).
Qed.



(** ** Registration *)

Lemma findByUsername_run (username : string) (s : Store) :
  UserModel.findByUsername username s
  = (inr ((λ u, delete "password_hash" (dataValues u))
            <$> head (filter (λ u, User.username u = username) (rows (users s)))), s).
Proof.
  unfold UserModel.findByUsername, Db.findOne, mbind, async_bind.
  change (rows (table (R := User.attrs) s)) with (rows (users s)).
  by destruct (head (filter (λ u, User.username u = username) (rows (users s)))).
Qed.

Lemma findByWallet_run (wallet_address : string) (s : Store) :
  UserModel.findByWallet wallet_address s
  = (inr ((λ u, delete "password_hash" (dataValues u))
            <$> head (filter (λ u, User.wallet_address u = Some wallet_address)
                        (rows (users s)))), s).
Proof.
  unfold UserModel.findByWallet, Db.findOne, mbind, async_bind.
  change (rows (table (R := User.attrs) s)) with (rows (users s)).
  by destruct (head (filter (λ u, User.wallet_address u = Some wallet_address)
                       (rows (users s)))).
Qed.

Lemma create_run `{bcrypt : Bcrypt} (username : string)
    (email password wallet_address : option string) (s : Store) :
  UserModel.create username email password wallet_address s
  = let new :=
      User.mk (serial (users s)) username email
        match password with
        | Some p => if decide (p = "") then None else Some (bcrypt_hash p 10)
        | None => None
        end wallet_address
        (Some ("Hey there! I'm " +:+ username))
        (Some ("https://ui-avatars.com/api/?name=" +:+ username +:+ "&background=random"))
        (Some "") (Some "") (Some "") (clock s) in
    if decide (Exists (taken username email wallet_address) (rows (users s)))
    then (inl UniqueConstraintError, s)
    else (inr (Some (delete "password_hash" (dataValues new))),
          mkStore (mkTable (rows (users s) ++ [new]) (serial (users s) + 1))
            (posts s) (comments s) (follows s) (likes s) (clock s)).
Proof.
  unfold UserModel.create, now, read, mbind, async_bind. cbn [fst snd].
  rewrite User_create_run. cbv zeta.
  destruct (decide (Exists (taken username email wallet_address) (rows (users s))))
    as [Htaken|Hfree].
  - rewrite decide_True; [done|].
    apply Exists_exists in Htaken as (u & Hu & Ht). apply Exists_exists. by exists u.
  - rewrite decide_False; [done|].
    intros He. apply Hfree. apply Exists_exists in He as (u & Hu & Ht).
    apply Exists_exists. by exists u.
Qed.

Lemma length_nonempty (p : string) (n : nat) : (S n ≤ String.length p)%nat → p ≠ "".
Proof. intros H ->. simpl in H. lia. Qed.



(** ** Signing in with a wallet *)

Lemma lower_hex (c : ascii) :
  AuthRoutes.is_hex_digit c = true → AuthRoutes.is_hex_digit (AuthRoutes.lower c) = true.
Proof. destruct c as [[] [] [] [] [] [] [] []]; vm_compute; congruence. Qed.

Lemma forallb_lower_hex (l : list ascii) :
  forallb AuthRoutes.is_hex_digit l = true →
  forallb AuthRoutes.is_hex_digit (AuthRoutes.lower <$> l) = true.
Proof.
  induction l as [|c l IH]; [done|]. rewrite fmap_cons. cbn [forallb].
  intros [Hc Hl]%andb_true_iff. by rewrite (lower_hex c Hc), IH.
Qed.

Lemma valid_wallet_lower (w : string) :
  AuthRoutes.valid_wallet w = true →
  AuthRoutes.valid_wallet (AuthRoutes.toLowerCase w) = true.
Proof.
  unfold AuthRoutes.valid_wallet, AuthRoutes.toLowerCase.
  rewrite String.list_ascii_of_string_of_list_ascii.
  destruct (String.list_ascii_of_string w) as [|c0 [|c1 digits]]; [done|..].
  - by destruct c0 as [[] [] [] [] [] [] [] []].
  - rewrite !fmap_cons.
    pose proof (length_fmap AuthRoutes.lower digits) as Hd.
    pose proof (forallb_lower_hex digits) as Hh.
    revert Hd Hh. generalize (AuthRoutes.lower <$> digits). intros lowered Hd Hh.
    destruct c0 as [[] [] [] [] [] [] [] []]; try done.
    destruct c1 as [[] [] [] [] [] [] [] []]; try done.
    cbn [AuthRoutes.lower]. intros [Hlen Hhex]%andb_true_iff.
    change (bool_decide (length lowered = 40%nat)
            && forallb AuthRoutes.is_hex_digit lowered = true).
    apply andb_true_iff. split; [|by apply Hh].
    apply bool_decide_eq_true. apply bool_decide_eq_true in Hlen. by rewrite Hd.
Qed.

Lemma valid_wallet_nonempty (w : string) : AuthRoutes.valid_wallet w = true → w ≠ "".
Proof. by intros H ->. Qed.

Lemma wallet_session_run `{jwt : Jwt} (u : User.attrs) (s : Store) :
  ∃ resp,
    AuthRoutes.wallet_session (Some (delete "password_hash" (dataValues u))) s
    = (inr resp, s)
    ∧ AuthRoutes.status resp = 200
    ∧ AuthRoutes.cookie resp = Some (jwt_sign (User.id u)).
Proof. eexists. split; [reflexivity|]. split; reflexivity. Qed.


